(** * gologger: the section logger

    A shallow embedding of [sectionlogger/sectionlogger.go] and of the parts
    of [coloransi/coloransi.go] it calls, followed by the properties of the
    buffering phase, of [Render] and of the streaming phase.  The other
    colour functions of [coloransi/coloransi.go], and [formatBytes], [Start]
    and [Stop] of [monitor/monitor.go], follow in modules of their own; the
    goroutine of the monitor, the random colour and the levelled logger are
    not embedded.

    Conventions of the embedding.
    - A Go [string] is a Rocq [string]: a sequence of bytes, [String.length]
      is Go's [len].  String literals of this file are UTF-8, so the
      box-drawing glyphs are three bytes each, as in the Go source.
    - A Go [int] is a [Z]; where the source does arithmetic on one, the
      64-bit wrap-around is written out ([int_wrap]).
    - [time.Time] is an [Instant]: nanoseconds on one clock.  Every call of
      [time.Now()] is an explicit argument [now] of the operation.
    - A panic is a value: fallible code returns an [outcome].
    - Standard output is the list of lines an operation printed, one element
      per [fmt.Printf]/[fmt.Println] call, without the final newline.
    - The mutex is not modelled: operations are atomic steps on the state. *)

From Stdlib Require Import ZArith Sorted.
From stdpp Require Import base strings gmap list pretty.

Local Open Scope Z_scope.

(** ** Panics *)

Inductive outcome (A : Type) : Type :=
  | Ok (a : A)
  | Panic (msg : string).
Arguments Ok {A} a.
Arguments Panic {A} msg.

#[global] Instance outcome_ret : MRet outcome := fun A a => Ok a.
#[global] Instance outcome_bind : MBind outcome := fun A B f m =>
  match m with
  | Ok a => f a
  | Panic msg => Panic msg
  end.

Definition is_Ok {A} (o : outcome A) : bool :=
  match o with Ok _ => true | Panic _ => false end.

(** ** Machine integers *)

Definition maxInt : Z := 2 ^ 63 - 1.

(** Two's-complement wrap-around of a 64-bit [int]. *)
Definition int_wrap (z : Z) : Z := (z + 2 ^ 63) mod 2 ^ 64 - 2 ^ 63.

(** [len(s)]. *)
Definition len (s : string) : Z := Z.of_nat (String.length s).

(** [n] copies of [s], one after the other. *)
Fixpoint copies (n : nat) (s : string) : string :=
  match n with
  | O => ""
  | S n => s +:+ copies n s
  end.

(** ** Package unicode/utf8: counting runes

    [fmt] pads to a width counted in runes, so [RuneCountInString] is part
    of what the logger computes.  The table [first] and the accept ranges
    are those of the Go runtime. *)
Module utf8.

Definition byte (a : Ascii.ascii) : N := Ascii.N_of_ascii a.

Definition RuneSelf : N := 0x80.
Definition xx : N := 0xF1.
Definition locb : N := 0x80.
Definition hicb : N := 0xBF.

Local Open Scope N_scope.

Definition first (c : N) : N :=
  if c <? 0x80 then 0xF0
  else if c <? 0xC2 then xx
  else if c <? 0xE0 then 0x02
  else if c =? 0xE0 then 0x13
  else if c <? 0xED then 0x03
  else if c =? 0xED then 0x23
  else if c <? 0xF0 then 0x03
  else if c =? 0xF0 then 0x34
  else if c <? 0xF4 then 0x04
  else if c =? 0xF4 then 0x44
  else xx.

Definition acceptRanges (i : N) : N * N :=
  match i with
  | 0 => (locb, hicb)
  | 1 => (0xA0, hicb)
  | 2 => (locb, 0x9F)
  | 3 => (0x90, hicb)
  | _ => (locb, 0x8F)
  end.

Definition outside (lo hi c : N) : bool := (c <? lo) || (hi <? c).

(** The number of bytes the loop of [RuneCountInString] advances by when it
    stands on byte [c] with [rest] after it. *)
Definition advance (c : Ascii.ascii) (rest : string) : nat :=
  let c := byte c in
  if c <? RuneSelf then 1%nat
  else
    let x := first c in
    if x =? xx then 1%nat
    else
      let size := N.to_nat (N.land x 7) in
      if (String.length rest <? size - 1)%nat then 1%nat
      else
        let '(lo, hi) := acceptRanges (N.shiftr x 4) in
        match rest with
        | String c1 r1 =>
            if outside lo hi (byte c1) then 1%nat
            else if (size =? 2)%nat then 2%nat
            else
              match r1 with
              | String c2 r2 =>
                  if outside locb hicb (byte c2) then 1%nat
                  else if (size =? 3)%nat then 3%nat
                  else
                    match r2 with
                    | String c3 _ =>
                        if outside locb hicb (byte c3) then 1%nat else 4%nat
                    | EmptyString => 1%nat
                    end
              | EmptyString => 1%nat
              end
        | EmptyString => 1%nat
        end.

(** [skip] bytes of the current rune are still to be passed over. *)
Fixpoint countFrom (skip : nat) (s : string) : nat :=
  match s with
  | EmptyString => 0%nat
  | String c rest =>
      match skip with
      | S k => countFrom k rest
      | O => S (countFrom (Nat.pred (advance c rest)) rest)
      end
  end.

Definition RuneCountInString (s : string) : nat := countFrom 0 s.

End utf8.

(** ** Package strings *)
Module gostrings.

(** [strings.Repeat]: panics on a negative count and on a result longer
    than an [int] can measure.  Running out of memory is outside the model. *)
Definition Repeat (s : string) (count : Z) : outcome string :=
  if count <? 0 then Panic "strings: negative Repeat count"
  else if maxInt <? len s * count then Panic "strings: Repeat output length overflow"
  else Ok (copies (Z.to_nat count) s).

Definition upperByte (a : Ascii.ascii) : Ascii.ascii :=
  let c := Ascii.N_of_ascii a in
  if ((97 <=? c) && (c <=? 122))%N then Ascii.ascii_of_N (c - 32) else a.

(** [strings.ToUpper] on ASCII text: the letters a-z are mapped to A-Z.
    The Unicode case tables of package unicode are not embedded; a byte
    from 0x80 on is left as it is, so on text with non-ASCII letters this
    is an approximation of the Go function.  The general theorems below
    never look inside [ToUpper]; only evaluations on ASCII names do. *)
Fixpoint ToUpper (s : string) : string :=
  match s with
  | EmptyString => EmptyString
  | String a rest => String (upperByte a) (ToUpper rest)
  end.

(** [strings.Join]. *)
Definition Join (elems : list string) (sep : string) : string :=
  String.concat sep elems.

End gostrings.

(** ** Package fmt: the verbs the logger uses *)
Module gofmt.

Definition spaces (n : nat) : string := copies n " ".

(** [%-*s] and the padding of [%-6d]: the text, then spaces up to [wid]
    runes.  A negative width given through [*] is taken in absolute value. *)
Definition padRight (wid : Z) (s : string) : string :=
  s +:+ spaces (Z.to_nat (Z.abs wid) - utf8.RuneCountInString s).

(** [%d]. *)
Definition decimal (z : Z) : string := pretty z.

End gofmt.

(** ** Package coloransi *)
Module coloransi.

(** [ColorCode] is a [uint32]: the low 8 bits an ANSI code, the high 24 an
    RGB triple. *)
Definition ColorCode := Z.
Definition TextStyle := Z.

Definition uint32_wrap (z : Z) : Z := z mod 2 ^ 32.

Definition Black : ColorCode := 30.
Definition Red : ColorCode := 31.
Definition Green : ColorCode := 32.
Definition Yellow : ColorCode := 33.
Definition Blue : ColorCode := 34.
Definition Magenta : ColorCode := 35.
Definition Cyan : ColorCode := 36.
Definition White : ColorCode := 37.
Definition BrightBlack : ColorCode := Black + 60.
Definition BrightRed : ColorCode := Red + 60.
Definition BrightGreen : ColorCode := Green + 60.
Definition BrightYellow : ColorCode := Yellow + 60.
Definition BrightBlue : ColorCode := Blue + 60.
Definition BrightMagenta : ColorCode := Magenta + 60.
Definition BrightCyan : ColorCode := Cyan + 60.
Definition BrightWhite : ColorCode := White + 60.
Definition BackgroundOffset : ColorCode := 10.
Definition RGBMask : ColorCode := 0xFFFFFF00.

(** [TestTextStyles] fixes the styles: [Bold] is 1, [Italic] 3,
    [Underline] 4. *)
Definition Bold : TextStyle := 1.
Definition Italic : TextStyle := 3.
Definition Underline : TextStyle := 4.

(** [CreateRGB(r, g, b)], the arguments being [uint8]. *)
Definition CreateRGB (r g b : Z) : ColorCode :=
  Z.lor (Z.shiftl r 24) (Z.lor (Z.shiftl g 16) (Z.shiftl b 8)).

Definition IsRGB (c : ColorCode) : bool := negb (Z.land c RGBMask =? 0).

(** The byte 0x1B that opens an escape sequence. *)
Definition ESC : string :=
  String (Ascii.Ascii true true false true true false false false) "".

Definition rgbTriple (code : ColorCode) : string :=
  let r := Z.land (Z.shiftr code 24) 0xFF in
  let g := Z.land (Z.shiftr code 16) 0xFF in
  let b := Z.land (Z.shiftr code 8) 0xFF in
  gofmt.decimal r +:+ ";" +:+ gofmt.decimal g +:+ ";" +:+ gofmt.decimal b.

Definition OneForeground (code : ColorCode) : string :=
  if IsRGB code then ESC +:+ "[38;2;" +:+ rgbTriple code +:+ "m"
  else ESC +:+ "[" +:+ gofmt.decimal code +:+ "m".

Definition OneBackground (code : ColorCode) : string :=
  if IsRGB code then ESC +:+ "[48;2;" +:+ rgbTriple code +:+ "m"
  else ESC +:+ "[" +:+ gofmt.decimal (uint32_wrap (code + BackgroundOffset)) +:+ "m".

Definition Reset : string := ESC +:+ "[0m".

(** [Foreground(fg, v...)]: the arguments, already text here, joined by one
    space between the colour sequence and the reset. *)
Definition Foreground (fg : ColorCode) (v : list string) : string :=
  let fgCode := OneForeground fg in
  let text := gostrings.Join v " " in
  fgCode +:+ text +:+ Reset.

(** Modelled from the spec: [ColorAndStyle] and the type [TextStyle] are
    declared in a file of package coloransi that is not among the sources;
    only their test ([TestColorAndStyle]) and their callers are.  The spec
    has it wrap the text in the sequence for the foreground, then the one
    for the background if a background is set, then the one for the style,
    and close with the reset sequence; a colour or style of 0 is one that
    is not set.  The three cases of [TestColorAndStyle] evaluate as the
    test expects.  The theorems on ordering, frames and streaming hold for
    whatever this function returns; the lemmas that count glyphs use that
    it puts escape sequences around the text and nothing else. *)
Definition ColorAndStyle (fg bg : ColorCode) (style : TextStyle) (text : string) : string :=
  let fgCode := OneForeground fg in
  let bgCode := if bg =? 0 then "" else OneBackground bg in
  let styleCode := if style =? 0 then "" else ESC +:+ "[" +:+ gofmt.decimal style +:+ "m" in
  fgCode +:+ bgCode +:+ styleCode +:+ text +:+ Reset.

End coloransi.

(** ** Package time, as far as the event entries use it *)
Module gotime.

(** Nanoseconds on the clock that [time.Now()] reads. *)
Definition Instant := Z.

Definition minDuration : Z := - 2 ^ 63.
Definition maxDuration : Z := 2 ^ 63 - 1.

(** [t.Sub(u)]: the difference, saturated to the range of a [Duration]. *)
Definition Sub (t u : Instant) : Z :=
  Z.max minDuration (Z.min maxDuration (t - u)).

(** [d.Milliseconds()]: integer division, truncated towards zero. *)
Definition Milliseconds (d : Z) : Z := Z.quot d 1000000.

End gotime.

(** ** Package sectionlogger *)
Module sectionlogger.
Import coloransi gotime.

(** The interface [logEntry] with its two implementations. *)
Inductive logEntry : Type :=
  | labelEntry (section label value : string)
  | eventEntry (section value : string) (timestamp startTime prevTime : Instant).

Definition Width (e : logEntry) : Z :=
  match e with
  | labelEntry _ label _ => len label
  | eventEntry _ _ _ _ _ => 13
  end.

(** The method [Section()]. *)
Definition SectionOf (e : logEntry) : string :=
  match e with
  | labelEntry section _ _ => section
  | eventEntry section _ _ _ _ => gostrings.ToUpper section
  end.

Definition RenderLabel (e : logEntry) : string :=
  match e with
  | labelEntry _ label _ => label
  | eventEntry _ _ timestamp startTime prevTime =>
      let sinceStart := Milliseconds (Sub timestamp startTime) in
      let sincePrev := Milliseconds (Sub timestamp prevTime) in
      gofmt.padRight 6 (gofmt.decimal sinceStart) +:+ " "
        +:+ gofmt.padRight 6 (gofmt.decimal sincePrev)
  end.

Definition RenderValue (e : logEntry) : string :=
  match e with
  | labelEntry _ _ value => value
  | eventEntry _ value _ _ _ => value
  end.

Record SectionLogger : Type := mkSectionLogger {
  prefix : string;
  entries : list logEntry;
  startTime : Instant;
  lastTime : Instant;
  width : Z;
  borderFg : ColorCode;
  borderBg : ColorCode;
  borderStyle : TextStyle;
  prefixFg : ColorCode;
  prefixBg : ColorCode;
  prefixStyle : TextStyle;
  complete : bool
}.

Definition New (now : Instant) (prefix : string) : SectionLogger :=
  {| prefix := prefix; entries := []; startTime := now; lastTime := now;
     width := 80; borderFg := Black; borderBg := BrightGreen; borderStyle := 0;
     prefixFg := Black; prefixBg := Cyan; prefixStyle := 0; complete := false |}.

(** Assignments to single fields. *)
Definition set_entries (es : list logEntry) (l : SectionLogger) : SectionLogger :=
  mkSectionLogger (prefix l) es (startTime l) (lastTime l) (width l)
    (borderFg l) (borderBg l) (borderStyle l)
    (prefixFg l) (prefixBg l) (prefixStyle l) (complete l).

Definition set_lastTime (t : Instant) (l : SectionLogger) : SectionLogger :=
  mkSectionLogger (prefix l) (entries l) (startTime l) t (width l)
    (borderFg l) (borderBg l) (borderStyle l)
    (prefixFg l) (prefixBg l) (prefixStyle l) (complete l).

Definition set_complete (b : bool) (l : SectionLogger) : SectionLogger :=
  mkSectionLogger (prefix l) (entries l) (startTime l) (lastTime l) (width l)
    (borderFg l) (borderBg l) (borderStyle l)
    (prefixFg l) (prefixBg l) (prefixStyle l) b.

Definition SetWidth (w : Z) (l : SectionLogger) : SectionLogger :=
  mkSectionLogger (prefix l) (entries l) (startTime l) (lastTime l) w
    (borderFg l) (borderBg l) (borderStyle l)
    (prefixFg l) (prefixBg l) (prefixStyle l) (complete l).

Definition SetBorderColor (fg bg : ColorCode) (style : TextStyle) (l : SectionLogger)
  : SectionLogger :=
  mkSectionLogger (prefix l) (entries l) (startTime l) (lastTime l) (width l)
    fg bg style (prefixFg l) (prefixBg l) (prefixStyle l) (complete l).

Definition SetPrefixColor (fg bg : ColorCode) (style : TextStyle) (l : SectionLogger)
  : SectionLogger :=
  mkSectionLogger (prefix l) (entries l) (startTime l) (lastTime l) (width l)
    (borderFg l) (borderBg l) (borderStyle l) fg bg style (complete l).

(** [TimeSinceLast()], read at [now]. *)
Definition TimeSinceLast (now : Instant) (l : SectionLogger) : Z :=
  Sub now (lastTime l).

(** The coloured prefix every line starts with. *)
Definition prefixBlock (l : SectionLogger) : string :=
  ColorAndStyle (prefixFg l) (prefixBg l) (prefixStyle l) (prefix l).

Definition renderEntry (l : SectionLogger) (entry : logEntry) (maxKeyWidth : Z) : string :=
  let labelPadded :=
    gofmt.padRight maxKeyWidth (SectionOf entry +:+ "/" +:+ RenderLabel entry) in
  prefixBlock l +:+ " " +:+ Foreground BrightWhite [labelPadded]
    +:+ " : " +:+ RenderValue entry.

Definition calculateMaxWidth (l : SectionLogger) : Z :=
  foldl (fun maxWidth entry =>
           let width := Width entry in
           if maxWidth <? width then width else maxWidth)
        0 (entries l).

Definition createBorderLine (l : SectionLogger) (leftChar text : string) : outcome string :=
  let width := width l in
  let borderFg := borderFg l in
  let borderBg := borderBg l in
  let borderStyle := borderStyle l in
  dashes ← gostrings.Repeat "━" 4;
  let parts :=
    [ColorAndStyle borderFg borderBg borderStyle leftChar;
     ColorAndStyle borderFg borderBg borderStyle dashes] in
  let borderWidth := int_wrap (width - 5) in
  let '(parts, borderWidth) :=
    if negb (String.eqb text "") then
      let textColored :=
        ColorAndStyle BrightWhite Black (Z.lor borderStyle Bold) (" " +:+ text +:+ " ") in
      let textSegment :=
        ColorAndStyle borderFg borderBg borderStyle "┥" +:+ textColored
          +:+ ColorAndStyle borderFg borderBg borderStyle "┝" in
      (parts ++ [textSegment], int_wrap (borderWidth - int_wrap (len text + 4)))
    else (parts, borderWidth) in
  fill ← gostrings.Repeat "━" borderWidth;
  let parts := parts ++ [ColorAndStyle borderFg borderBg borderStyle fill] in
  let parts := parts ++ [ColorAndStyle borderFg borderBg borderStyle "┅"] in
  Ok (gostrings.Join parts "").

(** The backward scan of the streaming path, from index [len-2] down to 0,
    over the buffer that already holds the new entry. *)
Fixpoint scanFor (section : string) (backwards : list logEntry) : bool :=
  match backwards with
  | [] => false
  | e :: rest => if String.eqb (SectionOf e) section then true else scanFor section rest
  end.

Definition isNewSection (l : SectionLogger) (section : string) : bool :=
  negb (scanFor section (reverse (take (length (entries l) - 1) (entries l)))).

(** The block under [if complete] that [Add] and [Event] both carry: an
    optional continuation header, then the entry.  The border line is built
    before anything is printed, so a panic there prints nothing. *)
Definition streamLate (l : SectionLogger) (section : string) (entry : logEntry)
  : outcome (list string) :=
  header ←
    (if isNewSection l section
     then b ← createBorderLine l "┣" section; Ok [prefixBlock l +:+ " " +:+ b]
     else Ok []);
  Ok (header ++ [renderEntry l entry (calculateMaxWidth l)]).

Definition Add (now : Instant) (section label value : string) (l : SectionLogger)
  : SectionLogger * outcome (list string) :=
  let section := gostrings.ToUpper section in
  let entry := labelEntry section label value in
  let l' := set_lastTime now (set_entries (entries l ++ [entry]) l) in
  (l', if complete l then streamLate l' section entry else Ok []).

Definition Clear (section : string) (l : SectionLogger) : SectionLogger :=
  let section := gostrings.ToUpper section in
  let newEntries :=
    foldl (fun newEntries entry =>
             if negb (String.eqb (SectionOf entry) section)
             then newEntries ++ [entry] else newEntries)
          [] (entries l) in
  set_entries newEntries l.

Definition Event (now : Instant) (section value : string) (l : SectionLogger)
  : SectionLogger * outcome (list string) :=
  let entry := eventEntry section value now (startTime l) (lastTime l) in
  let l' := set_lastTime now (set_entries (entries l ++ [entry]) l) in
  (l', if complete l then streamLate l' section entry else Ok []).

(** The first loop of [Render]: the map from section to its entries and the
    slice [sectionOrder]. *)
Definition groupStep (acc : gmap string (list logEntry) * list string) (entry : logEntry)
  : gmap string (list logEntry) * list string :=
  let '(sections, sectionOrder) := acc in
  let section := SectionOf entry in
  let sectionOrder :=
    if (length (sections !!! section) =? 0)%nat
    then sectionOrder ++ [section] else sectionOrder in
  (<[section := (sections !!! section) ++ [entry]]> sections, sectionOrder).

Definition groupEntries (es : list logEntry) : gmap string (list logEntry) * list string :=
  foldl groupStep (∅, []) es.

(** One entry line of the bulk report. *)
Definition entryLine (l : SectionLogger) (maxKeyWidth : Z) (entry : logEntry) : string :=
  let labelPadded := gofmt.padRight maxKeyWidth (RenderLabel entry) in
  prefixBlock l +:+ " " +:+ ColorAndStyle (borderFg l) (borderBg l) (borderStyle l) "┃"
    +:+ " " +:+ Foreground BrightWhite [labelPadded]
    +:+ " : " +:+ RenderValue entry.

Definition headerLine (l : SectionLogger) (borderChar section : string) : outcome string :=
  b ← createBorderLine l borderChar section;
  Ok (prefixBlock l +:+ " " +:+ b).

(** The body of the second loop of [Render]; the accumulator is the index
    [i] of the range and [results]. *)
Definition renderSection (l : SectionLogger) (maxKeyWidth : Z)
    (sections : gmap string (list logEntry))
    (acc : outcome (nat * list string)) (section : string)
  : outcome (nat * list string) :=
  '(i, results) ← acc;
  let entries := sections !!! section in
  let borderChar := if (i =? 0)%nat then "┏" else "┣" in
  header ← headerLine l borderChar section;
  let results := results ++ [header] in
  let results :=
    foldl (fun results entry => results ++ [entryLine l maxKeyWidth entry])
          results entries in
  Ok (S i, results).

Definition Render (l : SectionLogger) : SectionLogger * outcome (list string) :=
  let l' := set_complete true l in
  let '(sections, sectionOrder) := groupEntries (entries l') in
  let maxKeyWidth := calculateMaxWidth l' in
  (l',
   '(_, results) ← foldl (renderSection l' maxKeyWidth sections) (Ok (0%nat, [])) sectionOrder;
   if (0 <? length results)%nat
   then footer ← headerLine l' "┗" ""; Ok (results ++ [footer])
   else Ok results).

(** The three mutation operations under one name, each with the clock
    reading of its call.  [Clear] never reads the clock and never prints. *)
Inductive mutation : Type :=
  | MAdd (section label value : string)
  | MEvent (section value : string)
  | MClear (section : string).

Definition mutate (now : Instant) (m : mutation) (l : SectionLogger)
  : SectionLogger * outcome (list string) :=
  match m with
  | MAdd section label value => Add now section label value l
  | MEvent section value => Event now section value l
  | MClear section => (Clear section l, Ok [])
  end.

End sectionlogger.

(** ** What a terminal shows of a line

    The measures the layout properties speak of: escape sequences take no
    column, every other rune takes one. *)
Module display.

Definition isESC (a : Ascii.ascii) : bool := (Ascii.N_of_ascii a =? 27)%N.
Definition isFinal (a : Ascii.ascii) : bool := (Ascii.N_of_ascii a =? 109)%N.

(** The text without its escape sequences, each running from the byte 0x1B
    to the next [m]. *)
Fixpoint strip (inEscape : bool) (s : string) : string :=
  match s with
  | EmptyString => EmptyString
  | String a rest =>
      if inEscape then strip (negb (isFinal a)) rest
      else if isESC a then strip true rest
      else String a (strip false rest)
  end.

Definition visible (s : string) : string := strip false s.

(** The number of glyphs of a line. *)
Definition glyphs (s : string) : nat := utf8.RuneCountInString (visible s).

(** The column, in glyphs, at which the first [" : "] of a line starts. *)
Definition separatorColumn (line : string) : option nat :=
  i ← String.index 0 " : " (visible line);
  Some (utf8.RuneCountInString (String.substring 0 i (visible line))).

(** The same measures on what a fallible step returned. *)
Definition glyphsOf (o : outcome string) : outcome nat :=
  line ← o; Ok (glyphs line).

Definition separatorColumns (o : outcome (list string)) : outcome (list (option nat)) :=
  lines ← o; Ok (map separatorColumn lines).

End display.

(** ** What the spec says a report is

    The definitions of this module follow the words of the spec, to be
    compared with [sectionlogger.Render]. *)
Module report.
Import sectionlogger.

(** The distinct names of a list, each at the place of its first
    occurrence. *)
Fixpoint firstOccurrences (names : list string) : list string :=
  match names with
  | [] => []
  | x :: rest => x :: filter (fun y => y ≠ x) (firstOccurrences rest)
  end.

(** The entries of one section, in buffer order. *)
Definition inSection (s : string) (es : list logEntry) : list logEntry :=
  filter (fun e => SectionOf e = s) es.

(** The section groups of a buffer, in first-occurrence order. *)
Definition groupsOf (es : list logEntry) : list (string * list logEntry) :=
  map (fun s => (s, inSection s es)) (firstOccurrences (map SectionOf es)).

(** The lines of a sequence of groups: for each group its header, with the
    top-left corner on the very first and the branch on every later one,
    then one line per entry. *)
Fixpoint linesOf (l : SectionLogger) (maxKeyWidth : Z) (isFirst : bool)
    (groups : list (string * list logEntry)) : outcome (list string) :=
  match groups with
  | [] => Ok []
  | (s, es) :: rest =>
      header ← headerLine l (if isFirst then "┏" else "┣") s;
      below ← linesOf l maxKeyWidth false rest;
      Ok (header :: map (entryLine l maxKeyWidth) es ++ below)
  end.

(** The whole report: the groups, then the closing border if there is any
    line at all. *)
Definition reportOf (l : SectionLogger) : outcome (list string) :=
  body ← linesOf l (calculateMaxWidth l) true (groupsOf (entries l));
  match body with
  | [] => Ok []
  | _ :: _ => footer ← headerLine l "┗" ""; Ok (body ++ [footer])
  end.



End report.

(** ** Vocabulary of the layout lemmas *)
Module layout.
Import utf8 gotime sectionlogger.

Fixpoint allChars (P : Ascii.ascii → bool) (s : string) : bool :=
  match s with
  | EmptyString => true
  | String a rest => P a && allChars P rest
  end.

(** A digit or the minus sign: the characters of [%d]. *)
Definition isDecimalChar (a : Ascii.ascii) : bool :=
  let c := Ascii.N_of_ascii a in ((48 <=? c) && (c <=? 57) || (c =? 45))%N.

Definition notFinal (a : Ascii.ascii) : bool := negb (display.isFinal a).
Definition notESC (a : Ascii.ascii) : bool := negb (display.isESC a).
Definition isASCII (a : Ascii.ascii) : bool := (Ascii.N_of_ascii a <? 128)%N.
Definition isPrintable (a : Ascii.ascii) : bool := isASCII a && notESC a.

(** [s] is [n] whole runes: the count of a text that starts with [s] is [n]
    more than the count of what follows. *)
Definition wholeRunes (s : string) (n : nat) : Prop :=
  ∀ rest, countFrom 0 (s +:+ rest) = (n + countFrom 0 rest)%nat.

(** The count that [createBorderLine] passes to the last [strings.Repeat]. *)
Definition fillCount (l : SectionLogger) (text : string) : Z :=
  let borderWidth := int_wrap (width l - 5) in
  if negb (String.eqb text "")
  then int_wrap (borderWidth - int_wrap (len text + 4))
  else borderWidth.

(** What a border line shows. *)
Definition borderText (leftChar text fill : string) : string :=
  leftChar +:+ "━━━━"
    +:+ (if String.eqb text "" then "" else "┥" +:+ " " +:+ text +:+ " " +:+ "┝")
    +:+ fill +:+ "┅".

(** The three corner glyphs [Render], [Add] and [Event] pass. *)
Definition isCorner (leftChar : string) : Prop :=
  leftChar = "┏" ∨ leftChar = "┣" ∨ leftChar = "┗".

(** The columns of the corner, the four dashes and the bracketed name. *)
Definition fixedGlyphs (text : string) : Z :=
  5 + (if String.eqb text "" then 0 else len text + 4).

(** The maximum [Width()] over a buffer, 0 for the empty one. *)
Definition maxWidthOf (es : list logEntry) : Z :=
  foldr (fun e m => Z.max (Width e) m) 0 es.



End layout.

(** ** Loggers of the examples *)
Module scenarios.
Import sectionlogger.

(** A logger that has rendered one label entry. *)
Definition rendered_one : SectionLogger :=
  (Render (Add 0 "a" "k" "v" (New 0 "P")).1).1.

(** A section name of 72 bytes. *)
Definition longName : string := copies 72 "s".

(** Two events of one section, the second 1000 seconds after the logger
    was created. *)
Definition long_running : SectionLogger :=
  (Event 1000000000000 "A" "late" (Event 0 "A" "start" (New 0 "P")).1).1.

(** A logger that has rendered one event logged under ["divert"]. *)
Definition rendered_divert : SectionLogger :=
  (Render (Event 0 "divert" "a" (New 0 "P")).1).1.

End scenarios.

(** ** Runs of operations

    The operations of a logger under one name, and what a sequence of them
    leaves; the vocabulary of the timing properties. *)
Module runs.
Import coloransi gotime sectionlogger.

Inductive operation : Type :=
  | OpMutate (now : Instant) (m : mutation)
  | OpRender
  | OpSetWidth (width : Z)
  | OpSetBorderColor (fg bg : ColorCode) (style : TextStyle)
  | OpSetPrefixColor (fg bg : ColorCode) (style : TextStyle).

Definition perform (op : operation) (l : SectionLogger)
  : SectionLogger * outcome (list string) :=
  match op with
  | OpMutate now m => mutate now m l
  | OpRender => Render l
  | OpSetWidth w => (SetWidth w l, Ok [])
  | OpSetBorderColor fg bg style => (SetBorderColor fg bg style l, Ok [])
  | OpSetPrefixColor fg bg style => (SetPrefixColor fg bg style l, Ok [])
  end.

Fixpoint run (ops : list operation) (l : SectionLogger)
  : SectionLogger * list (outcome (list string)) :=
  match ops with
  | [] => (l, [])
  | op :: rest =>
      let step := perform op l in
      let after := run rest step.1 in
      (after.1, step.2 :: after.2)
  end.

Definition isRender (op : operation) : bool :=
  match op with OpRender => true | _ => false end.

(** The two millisecond counts that [RenderLabel] prints for an event. *)
Definition elapsed (e : logEntry) : option (Z * Z) :=
  match e with
  | labelEntry _ _ _ => None
  | eventEntry _ _ timestamp startTime prevTime =>
      Some (Milliseconds (Sub timestamp startTime), Milliseconds (Sub timestamp prevTime))
  end.

(** The clock readings of a run do not go back, starting from [t0]. *)
Fixpoint clockOrdered (t0 : Instant) (ops : list operation) : Prop :=
  match ops with
  | [] => True
  | OpMutate now _ :: rest => t0 ≤ now ∧ clockOrdered now rest
  | _ :: rest => clockOrdered t0 rest
  end.

(** The events of a buffer carry [start], stand in the order of their
    timestamps from [lo] on, and each measures from an instant between
    [start] and its own timestamp. *)
Fixpoint chronological (start lo : Instant) (es : list logEntry) : Prop :=
  match es with
  | [] => True
  | labelEntry _ _ _ :: rest => chronological start lo rest
  | eventEntry _ _ timestamp startTime prevTime :: rest =>
      startTime = start ∧ start ≤ prevTime ≤ timestamp ∧ lo ≤ timestamp ∧
      chronological start timestamp rest
  end.

Definition stampedBy (hi : Instant) (e : logEntry) : Prop :=
  match e with
  | labelEntry _ _ _ => True
  | eventEntry _ _ timestamp _ _ => timestamp ≤ hi
  end.

(** What a run with an ordered clock keeps. *)
Definition inTime (t : Instant) (l : SectionLogger) : Prop :=
  startTime l ≤ lastTime l ≤ t ∧
  Forall (stampedBy (lastTime l)) (entries l) ∧
  chronological (startTime l) (startTime l) (entries l).

(** The first counts of the events of a buffer, in buffer order. *)
Definition sinceStarts (es : list logEntry) : list Z :=
  omap (fun e => fst <$> elapsed e) es.

Definition sincePrevs (es : list logEntry) : list Z :=
  omap (fun e => snd <$> elapsed e) es.

End runs.

(** ** Sample runs *)
Module samples.
Import coloransi gotime sectionlogger runs.

(** Buffering operations, one of them under a name too long for the width. *)
Definition quiet_ops : list operation :=
  [OpMutate 1 (MAdd "a" "k" "v"); OpMutate 2 (MEvent scenarios.longName "x");
   OpSetWidth 3; OpMutate 4 (MClear "a")].

(** Operations with the clock at 5 ms, 9 ms (twice) and 30 ms. *)
Definition timed_ops : list operation :=
  [OpMutate 5000000 (MEvent "a" "x"); OpRender;
   OpMutate 9000000 (MAdd "b" "k" "v"); OpMutate 9000000 (MClear "zz");
   OpMutate 30000000 (MEvent "b" "y")].

Definition one_label : SectionLogger := (Add 0 "a" "k" "v" (New 0 "P")).1.


End samples.

(** ** A report without its colours *)
Module plain.
Import utf8 coloransi gotime display sectionlogger report layout.

(** The text of a report, without colours. *)
Definition plainHeader (l : SectionLogger) (corner section : string) : outcome string :=
  fill ← gostrings.Repeat "━" (fillCount l section);
  Ok (prefix l +:+ " " +:+ borderText corner section fill).

Definition plainEntry (l : SectionLogger) (maxKeyWidth : Z) (e : logEntry) : string :=
  prefix l +:+ " " +:+ "┃" +:+ " " +:+ gofmt.padRight maxKeyWidth (RenderLabel e)
    +:+ " : " +:+ RenderValue e.

Fixpoint plainLinesOf (l : SectionLogger) (maxKeyWidth : Z) (isFirst : bool)
    (groups : list (string * list logEntry)) : outcome (list string) :=
  match groups with
  | [] => Ok []
  | (s, es) :: rest =>
      header ← plainHeader l (if isFirst then "┏" else "┣") s;
      below ← plainLinesOf l maxKeyWidth false rest;
      Ok (header :: map (plainEntry l maxKeyWidth) es ++ below)
  end.

Definition plainReport (l : SectionLogger) : outcome (list string) :=
  body ← plainLinesOf l (calculateMaxWidth l) true (groupsOf (entries l));
  match body with
  | [] => Ok []
  | _ :: _ => footer ← plainHeader l "┗" ""; Ok (body ++ [footer])
  end.

(** What the lines of a report show. *)
Definition shown (o : outcome (list string)) : outcome (list string) :=
  lines ← o; Ok (map visible lines).

(** No text of the logger holds the byte 0x1B. *)
Definition cleanEntry (e : logEntry) : Prop :=
  allChars notESC (SectionOf e) = true ∧
  allChars notESC (RenderLabel e) = true ∧
  allChars notESC (RenderValue e) = true.

Definition cleanLogger (l : SectionLogger) : Prop :=
  allChars notESC (prefix l) = true ∧ Forall cleanEntry (entries l).

(** The width and the section names are far from the ends of an [int]. *)
Definition inRange (l : SectionLogger) : Prop :=
  - 2 ^ 61 ≤ width l ≤ 2 ^ 61 ∧
  Forall (fun e => fixedGlyphs (SectionOf e) ≤ 2 ^ 61) (entries l).

(** The number of entries in a list of groups. *)
Definition groupSizes (groups : list (string * list logEntry)) : nat :=
  sum_list_with (fun g => length g.2) groups.

(** The message of the panic of [strings.Repeat] on a negative count. *)
Definition negativeRepeat : string := "strings: negative Repeat count".

End plain.

(** ** Package coloransi: the other colour functions *)
Module colours.
Import coloransi.

(** [RGB(r, g, b)]: the same shifts as [CreateRGB]. *)
Definition RGB (r g b : Z) : ColorCode :=
  Z.lor (Z.shiftl r 24) (Z.lor (Z.shiftl g 16) (Z.shiftl b 8)).

(** The slice [colors] of [ColorFrom]. *)
Definition colorsOfColorFrom : list ColorCode :=
  [Red; Green; Yellow; Blue; Magenta; Cyan; White;
   BrightRed; BrightGreen; BrightYellow; BrightBlue; BrightMagenta; BrightCyan;
   BrightWhite].

(** [ColorFrom(item)]: the element at [item % len(colors)]; indexing a slice
    out of its range panics. *)
Definition ColorFrom (item : Z) : outcome ColorCode :=
  let colors := colorsOfColorFrom in
  let index := item mod Z.of_nat (length colors) in
  match colors !! Z.to_nat index with
  | Some c => Ok c
  | None => Panic "index out of range"
  end.

(** [Color(fg, bg, v...)], the arguments being text already. *)
Definition Color (fg bg : ColorCode) (v : list string) : string :=
  let fgCode := OneForeground fg in
  let bgCode := OneBackground bg in
  let text := gostrings.Join v " " in
  fgCode +:+ bgCode +:+ text +:+ Reset.

End colours.

(** ** Package monitor *)
Module monitor.

Definition unit : Z := 1024.

(** The loop [for n := b / unit; n >= unit; n /= unit { div *= unit; exp++ }]
    on [n], the [int64] [div] and [exp]; [None] when the fuel is used up
    before the loop ends. *)
Fixpoint scale (fuel : nat) (n div : Z) (exp : nat) : option (Z * nat) :=
  match fuel with
  | O => None
  | S fuel =>
      if unit <=? n
      then scale fuel (n / unit) (int_wrap (div * unit)) (S exp)
      else Some (div, exp)
  end.

(** ["KMGTPE"[exp]]: indexing a string out of its range panics. *)
Definition unitLetter (exp : nat) : outcome Ascii.ascii :=
  match String.get exp "KMGTPE" with
  | Some c => Ok c
  | None => Panic "index out of range"
  end.

(** What [formatBytes] hands to [fmt.Sprintf]: the number itself under one
    unit, else the number, the divisor and the letter of the unit.  The
    rendering of the quotient by [%.1f], a [float64] division, is not part of
    the embedding. *)
Inductive byteCount : Type :=
  | plainBytes (text : string)
  | scaledBytes (b div : Z) (letter : Ascii.ascii).

Definition formatBytes (b : Z) : option (outcome byteCount) :=
  if b <? unit then Some (Ok (plainBytes (gofmt.decimal b +:+ " B")))
  else
    match scale 64 (b / unit) unit 0 with
    | None => None
    | Some (div, exp) =>
        Some (letter ← unitLetter exp; Ok (scaledBytes b div letter))
    end.











End monitor.


(** * Properties *)

Import utf8 coloransi gotime display sectionlogger report layout scenarios.

(** ** The colour formatter on the cases of its test *)

Example ColorAndStyle_as_tested :
  ColorAndStyle Red Black Bold "Test"
    = ESC +:+ "[31m" +:+ ESC +:+ "[40m" +:+ ESC +:+ "[1m" +:+ "Test" +:+ ESC +:+ "[0m" ∧
  ColorAndStyle Green White Underline "Hello"
    = ESC +:+ "[32m" +:+ ESC +:+ "[47m" +:+ ESC +:+ "[4m" +:+ "Hello" +:+ ESC +:+ "[0m" ∧
  ColorAndStyle (CreateRGB 100 150 200) Black Italic "RGB"
    = ESC +:+ "[38;2;100;150;200m" +:+ ESC +:+ "[40m" +:+ ESC +:+ "[3m" +:+ "RGB"
      +:+ ESC +:+ "[0m".
Proof. repeat split; vm_compute; reflexivity. Qed.

(** ** Strings *)

Lemma append_cons (x : Ascii.ascii) (a b : string) :
  String x a +:+ b = String x (a +:+ b).
Proof. reflexivity. Qed.

Lemma append_nil_l (b : string) : "" +:+ b = b.
Proof. reflexivity. Qed.

Lemma append_nil_r (a : string) : a +:+ "" = a.
Proof. induction a as [|x a IH]; [done|]. by rewrite append_cons, IH. Qed.

Lemma append_assoc (a b c : string) : (a +:+ b) +:+ c = a +:+ (b +:+ c).
Proof. induction a as [|x a IH]; [done|]. by rewrite !append_cons, IH. Qed.

(** ** The characters of a text *)

Lemma allChars_app P a b : allChars P (a +:+ b) = allChars P a && allChars P b.
Proof.
  induction a as [|x a IH]; [done|]. rewrite append_cons. simpl.
  by rewrite IH, andb_assoc.
Qed.

Lemma pretty_N_go_chars (x : N) (s : string) :
  allChars isDecimalChar s = true → allChars isDecimalChar (pretty_N_go x s) = true.
Proof.
  revert s. induction (N.lt_wf_0 x) as [x _ IH]; intros s Hs.
  destruct (decide (x = 0)%N) as [->|Hx]; [by rewrite pretty_N_go_0|].
  rewrite pretty_N_go_step by lia. apply IH.
  - apply N.div_lt; lia.
  - simpl. rewrite Hs, andb_true_r.
    unfold pretty_N_char. by repeat case_match.
Qed.

Lemma decimal_chars (z : Z) : allChars isDecimalChar (gofmt.decimal z) = true.
Proof.
  assert (∀ n : N, allChars isDecimalChar (pretty n) = true) as HN.
  { intros n. unfold pretty, pretty_N. case_decide; [done|].
    by apply pretty_N_go_chars. }
  unfold gofmt.decimal, pretty, pretty_Z. destruct z as [|p|p]; [done|apply HN|].
  rewrite allChars_app. simpl. apply HN.
Qed.

Lemma allChars_weaken (P Q : Ascii.ascii → bool) (s : string) :
  (∀ a, P a = true → Q a = true) → allChars P s = true → allChars Q s = true.
Proof.
  intros HPQ. induction s as [|a s IH]; simpl; [done|].
  rewrite !andb_true_iff. intros [? ?]. auto.
Qed.

Lemma decimalChar_notFinal a : isDecimalChar a = true → notFinal a = true.
Proof.
  unfold isDecimalChar, notFinal, isFinal.
  destruct (N.eqb_spec (Ascii.N_of_ascii a) 109) as [->|]; [done|done].
Qed.

(** ** Escape sequences take no column *)

Lemma strip_ESC (rest : string) : strip false (ESC +:+ rest) = strip true rest.
Proof. reflexivity. Qed.

Lemma strip_final (rest : string) : strip true ("m" +:+ rest) = strip false rest.
Proof. reflexivity. Qed.

Lemma strip_params (params rest : string) :
  allChars notFinal params = true →
  strip true (params +:+ rest) = strip true rest.
Proof.
  induction params as [|a p IH]; [done|].
  rewrite append_cons. simpl. rewrite andb_true_iff. intros [Ha Hp].
  unfold notFinal in Ha. rewrite Ha. by apply IH.
Qed.

Lemma strip_text (t rest : string) :
  allChars notESC t = true →
  strip false (t +:+ rest) = t +:+ strip false rest.
Proof.
  induction t as [|a t IH]; [done|].
  rewrite !append_cons. simpl. rewrite andb_true_iff. intros [Ha Ht].
  unfold notESC in Ha. apply negb_true_iff in Ha. rewrite Ha. by rewrite IH.
Qed.

Lemma decimal_notFinal z : allChars notFinal (gofmt.decimal z) = true.
Proof. eapply allChars_weaken; [apply decimalChar_notFinal | apply decimal_chars]. Qed.

Ltac strip_sequence :=
  rewrite ?append_assoc, ?strip_ESC;
  repeat (rewrite strip_params by (reflexivity || apply decimal_notFinal));
  rewrite ?strip_final.

Lemma strip_OneForeground (code : ColorCode) (rest : string) :
  strip false (OneForeground code +:+ rest) = strip false rest.
Proof.
  unfold OneForeground, rgbTriple. destruct (IsRGB code); by strip_sequence.
Qed.

Lemma strip_OneBackground (code : ColorCode) (rest : string) :
  strip false (OneBackground code +:+ rest) = strip false rest.
Proof.
  unfold OneBackground, rgbTriple. destruct (IsRGB code); by strip_sequence.
Qed.

Lemma strip_Reset (rest : string) : strip false (Reset +:+ rest) = strip false rest.
Proof. reflexivity. Qed.

(** A coloured text shows as the text. *)
Lemma strip_ColorAndStyle (fg bg : ColorCode) (style : TextStyle) (text rest : string) :
  allChars notESC text = true →
  strip false (ColorAndStyle fg bg style text +:+ rest) = text +:+ strip false rest.
Proof.
  intros Ht. unfold ColorAndStyle. rewrite !append_assoc, strip_OneForeground.
  assert (strip false ((if bg =? 0 then "" else OneBackground bg) +:+
            (if style =? 0 then "" else ESC +:+ "[" +:+ gofmt.decimal style +:+ "m")
            +:+ text +:+ Reset +:+ rest)
          = strip false (text +:+ Reset +:+ rest)) as ->.
  { destruct (bg =? 0); [rewrite append_nil_l | rewrite strip_OneBackground];
      (destruct (style =? 0); [by rewrite append_nil_l|]); by strip_sequence. }
  by rewrite strip_text, strip_Reset.
Qed.

Lemma strip_Foreground (fg : ColorCode) (text rest : string) :
  allChars notESC text = true →
  strip false (Foreground fg [text] +:+ rest) = text +:+ strip false rest.
Proof.
  intros Ht. unfold Foreground, gostrings.Join. simpl.
  by rewrite !append_assoc, strip_OneForeground, strip_text, strip_Reset.
Qed.

(** ** Counting runes *)

Lemma length_append (a b : string) :
  String.length (a +:+ b) = (String.length a + String.length b)%nat.
Proof. induction a as [|x a IH]; [done|]. rewrite append_cons. simpl. by rewrite IH. Qed.







Lemma wholeRunes_count s n : wholeRunes s n → RuneCountInString s = n.
Proof. intros H. specialize (H ""). rewrite append_nil_r in H. simpl in H. unfold RuneCountInString. lia. Qed.

Lemma wholeRunes_nil : wholeRunes "" 0.
Proof. by intros rest. Qed.

Lemma wholeRunes_app a b n m :
  wholeRunes a n → wholeRunes b m → wholeRunes (a +:+ b) (n + m).
Proof. intros Ha Hb rest. rewrite append_assoc, Ha, Hb. lia. Qed.

Lemma wholeRunes_ascii t :
  allChars isASCII t = true → wholeRunes t (String.length t).
Proof.
  induction t as [|a t IH]; simpl; [intros _; apply wholeRunes_nil|].
  rewrite andb_true_iff. intros [Ha Ht] rest. rewrite append_cons. simpl.
  unfold advance, byte, RuneSelf. unfold isASCII in Ha. rewrite Ha. simpl.
  by rewrite (IH Ht).
Qed.

Lemma wholeRunes_copies s k n : wholeRunes s k → wholeRunes (copies n s) (n * k).
Proof.
  intros Hs. induction n as [|n IH]; simpl; [apply wholeRunes_nil|].
  by apply wholeRunes_app.
Qed.

Lemma wholeRunes_dash : wholeRunes "━" 1.
Proof. by intros rest. Qed.
Lemma wholeRunes_cap : wholeRunes "┅" 1.
Proof. by intros rest. Qed.
Lemma wholeRunes_brackets : wholeRunes "┥" 1 ∧ wholeRunes "┝" 1.
Proof. by split; intros rest. Qed.
Lemma wholeRunes_corners : wholeRunes "┏" 1 ∧ wholeRunes "┣" 1 ∧ wholeRunes "┗" 1.
Proof. by repeat split; intros rest. Qed.


(** ** The border line *)

Ltac powers :=
  change (2 ^ 61) with 2305843009213693952 in *;
  change (2 ^ 63) with 9223372036854775808 in *;
  change (2 ^ 64) with 18446744073709551616 in *.

Lemma int_wrap_small (z : Z) : - 2 ^ 63 ≤ z < 2 ^ 63 → int_wrap z = z.
Proof. intros Hz. unfold int_wrap. powers. rewrite Z.mod_small; lia. Qed.

Lemma fillCount_exact (l : SectionLogger) (text : string) :
  - 2 ^ 61 ≤ width l ≤ 2 ^ 61 → len text ≤ 2 ^ 61 →
  fillCount l text = width l - 5 - (if String.eqb text "" then 0 else len text + 4).
Proof.
  intros Hw Ht. unfold fillCount. assert (0 ≤ len text) by (unfold len; lia).
  destruct (String.eqb text ""); simpl.
  - rewrite int_wrap_small; powers; lia.
  - rewrite (int_wrap_small (width l - 5)), (int_wrap_small (len text + 4))
      by (powers; lia).
    rewrite int_wrap_small; powers; lia.
Qed.

Lemma Repeat_negative (s : string) (count : Z) :
  count < 0 → gostrings.Repeat s count = Panic "strings: negative Repeat count".
Proof. intros Hc. unfold gostrings.Repeat. by rewrite (proj2 (Z.ltb_lt _ _) Hc). Qed.

Lemma Repeat_Ok (s : string) (count : Z) :
  0 ≤ count → len s * count ≤ maxInt →
  gostrings.Repeat s count = Ok (copies (Z.to_nat count) s).
Proof.
  intros Hc Hlen. unfold gostrings.Repeat.
  rewrite (proj2 (Z.ltb_ge _ _) Hc), (proj2 (Z.ltb_ge _ _) Hlen). done.
Qed.

Lemma createBorderLine_unfold (l : SectionLogger) (leftChar text : string) :
  createBorderLine l leftChar text =
    (fill ← gostrings.Repeat "━" (fillCount l text);
     let cs := ColorAndStyle (borderFg l) (borderBg l) (borderStyle l) in
     Ok (cs leftChar +:+ cs "━━━━"
         +:+ (if String.eqb text "" then ""
              else cs "┥" +:+ ColorAndStyle BrightWhite Black (Z.lor (borderStyle l) Bold)
                                (" " +:+ text +:+ " ") +:+ cs "┝")
         +:+ cs fill +:+ cs "┅")).
Proof.
  unfold createBorderLine, fillCount.
  change (gostrings.Repeat "━" 4) with (Ok (A:=string) "━━━━"). simpl.
  destruct (String.eqb text ""); simpl;
    destruct (gostrings.Repeat "━" _) as [fill|msg]; simpl; try done;
    unfold gostrings.Join; simpl; by rewrite ?append_assoc.
Qed.

Lemma allChars_copies P s n : allChars P s = true → allChars P (copies n s) = true.
Proof.
  intros Hs. induction n as [|n IH]; simpl; [done|]. by rewrite allChars_app, Hs, IH.
Qed.

Lemma printable_parts (s : string) :
  allChars isPrintable s = true →
  allChars isASCII s = true ∧ allChars notESC s = true.
Proof.
  intros H. split; (eapply allChars_weaken; [|exact H]); intros a;
    unfold isPrintable; rewrite andb_true_iff; tauto.
Qed.

Lemma visible_border_line (fg bg : ColorCode) (style : TextStyle)
    (leftChar text fill : string) :
  allChars notESC leftChar = true →
  allChars notESC text = true →
  allChars notESC fill = true →
  let cs := ColorAndStyle fg bg style in
  visible (cs leftChar +:+ cs "━━━━"
           +:+ (if String.eqb text "" then ""
                else cs "┥" +:+ ColorAndStyle BrightWhite Black (Z.lor style Bold)
                                  (" " +:+ text +:+ " ") +:+ cs "┝")
           +:+ cs fill +:+ cs "┅")
  = borderText leftChar text fill.
Proof.
  intros Hl Ht Hf cs. unfold visible, borderText, cs.
  rewrite <- (append_nil_r (ColorAndStyle fg bg style "┅")).
  rewrite !strip_ColorAndStyle by done.
  destruct (String.eqb text ""); rewrite ?append_nil_l, ?append_assoc.
  - by rewrite !strip_ColorAndStyle.
  - rewrite !strip_ColorAndStyle; try done.
    + by rewrite ?append_assoc.
    + by rewrite !allChars_app, Ht.
Qed.

Lemma borderText_runes (leftChar text : string) (n : nat) :
  wholeRunes leftChar 1 →
  allChars isASCII text = true →
  RuneCountInString (borderText leftChar text (copies n "━"))
  = (1 + 4 + (if String.eqb text "" then 0 else String.length text + 4) + n + 1)%nat.
Proof.
  intros Hl Ht. apply wholeRunes_count. unfold borderText.
  destruct wholeRunes_brackets as [Hleft Hright].
  pose proof (wholeRunes_copies "━" 1 4 wholeRunes_dash) as H4.
  pose proof (wholeRunes_copies "━" 1 n wholeRunes_dash) as Hn.
  rewrite Nat.mul_1_r in Hn.
  assert (wholeRunes (copies n "━" +:+ "┅") (n + 1)) as Htail
    by (apply wholeRunes_app; [done | apply wholeRunes_cap]).
  destruct (String.eqb text "").
  - replace (1 + 4 + 0 + n + 1)%nat with (1 + (4 + (0 + (n + 1))))%nat by lia.
    apply wholeRunes_app; [done|]. apply (wholeRunes_app "━━━━"); [exact H4|].
    apply wholeRunes_app; [apply wholeRunes_nil | done].
  - replace (1 + 4 + (String.length text + 4) + n + 1)%nat
      with (1 + (4 + ((1 + (1 + (String.length text + (1 + 1)))) + (n + 1))))%nat by lia.
    apply wholeRunes_app; [done|]. apply (wholeRunes_app "━━━━"); [exact H4|].
    apply wholeRunes_app; [|done].
    apply wholeRunes_app; [done|]. apply (wholeRunes_app " " _ 1); [by intros rest|].
    apply wholeRunes_app; [by apply wholeRunes_ascii|].
    apply (wholeRunes_app " " _ 1); [by intros rest | done].
Qed.

Lemma fillCount_room (l : SectionLogger) (text : string) :
  - 2 ^ 61 ≤ width l ≤ 2 ^ 61 → fixedGlyphs text ≤ 2 ^ 61 + 9 →
  fillCount l text = width l - fixedGlyphs text.
Proof.
  intros Hw Ht. unfold fixedGlyphs in *.
  assert (0 ≤ len text) as Hlen by (unfold len; lia).
  rewrite fillCount_exact; [| done |]; destruct (String.eqb_spec text "") as [->|_];
    unfold len in *; simpl in *; powers; lia.
Qed.

(** X15. For a corner glyph, a section name of printable ASCII characters
    and a width with room for the name (up to 2^61), the border line
    returns and shows [width + 1] glyphs: corner, four dashes, the bracketed
    name, the fill and the cap. *)
Lemma border_line_glyphs (l : SectionLogger) (leftChar text : string) :
  isCorner leftChar →
  allChars isPrintable text = true →
  fixedGlyphs text ≤ width l ≤ 2 ^ 61 →
  glyphsOf (createBorderLine l leftChar text) = Ok (Z.to_nat (width l + 1)).
Proof.
  intros Hcorner Htext Hw.
  apply printable_parts in Htext as [Hascii Hesc].
  assert (5 ≤ fixedGlyphs text) as Hfixed.
  { unfold fixedGlyphs, len. destruct (String.eqb text ""); lia. }
  rewrite createBorderLine_unfold, fillCount_room by (powers; lia).
  rewrite Repeat_Ok.
  2: lia.
  2: { change (len "━") with 3. unfold maxInt. powers. lia. }
  simpl. unfold glyphsOf. simpl. unfold glyphs. f_equal.
  rewrite visible_border_line.
  - rewrite borderText_runes; [| |done].
    + unfold fixedGlyphs, len in *. destruct (String.eqb text ""); lia.
    + destruct wholeRunes_corners as (? & ? & ?).
      by destruct Hcorner as [->|[->| ->]].
  - by destruct Hcorner as [->|[->| ->]].
  - done.
  - by apply allChars_copies.
Qed.

Lemma border_line_panics (l : SectionLogger) (leftChar text : string) :
  - 2 ^ 61 ≤ width l < fixedGlyphs text → fixedGlyphs text ≤ 2 ^ 61 →
  createBorderLine l leftChar text = Panic "strings: negative Repeat count".
Proof.
  intros Hw Ht.
  rewrite createBorderLine_unfold, Repeat_negative; [done|].
  rewrite fillCount_room; powers; lia.
Qed.

(** ** The grouping loop of Render *)

Section Grouping.

Implicit Types (es : list logEntry) (names : list string) (s : string).

Lemma firstOccurrences_elem names s :
  s ∈ firstOccurrences names ↔ s ∈ names.
Proof.
  revert s. induction names as [|x names IH]; intros s; simpl; [done|].
  rewrite !elem_of_cons, list_elem_of_filter, IH.
  destruct (decide (s = x)); tauto.
Qed.

Lemma firstOccurrences_snoc names s :
  firstOccurrences (names ++ [s]) =
    if decide (s ∈ names) then firstOccurrences names
    else firstOccurrences names ++ [s].
Proof.
  induction names as [|x names IH]; simpl; [done|].
  rewrite IH. destruct (decide (s ∈ names)) as [Hin|Hnin].
  - rewrite decide_True by (by right). done.
  - rewrite filter_app. destruct (decide (s = x)) as [->|Hne].
    + rewrite decide_True by (by left).
      rewrite (filter_cons_False _ x) by (intros ?; done).
      by rewrite filter_nil, app_nil_r.
    + rewrite decide_False by (rewrite elem_of_cons; intros [?|?]; congruence).
      by rewrite (filter_cons_True _ s) by done.
Qed.

Lemma firstOccurrences_NoDup names : NoDup (firstOccurrences names).
Proof.
  induction names as [|x names IH]; simpl; [constructor|].
  constructor.
  - rewrite list_elem_of_filter. intros [Hx _]. by apply Hx.
  - by apply NoDup_filter.
Qed.

Lemma inSection_snoc s es e :
  inSection s (es ++ [e]) =
    if decide (SectionOf e = s) then inSection s es ++ [e] else inSection s es.
Proof.
  unfold inSection. rewrite filter_app.
  destruct (decide (SectionOf e = s)) as [Heq|Hne].
  - by rewrite (filter_cons_True _ e) by done.
  - rewrite (filter_cons_False _ e) by done. by rewrite app_nil_r.
Qed.

Lemma inSection_empty s es :
  length (inSection s es) = 0%nat ↔ s ∉ map SectionOf es.
Proof.
  unfold inSection. rewrite length_zero_iff_nil.
  induction es as [|e es IH]; simpl.
  - split; [intros _; apply not_elem_of_nil | done].
  - rewrite not_elem_of_cons, <- IH.
    destruct (decide (SectionOf e = s)) as [Heq|Hne].
    + rewrite filter_cons_True by done. split; [discriminate | intros [Hs _]; congruence].
    + rewrite filter_cons_False by done. split; [intros ?; split; congruence | tauto].
Qed.

(** After the loop, the map holds each section's entries in buffer order and
    [sectionOrder] lists the sections by first occurrence. *)
Lemma groupEntries_spec es :
  (∀ s, (groupEntries es).1 !!! s = inSection s es) ∧
  (groupEntries es).2 = firstOccurrences (map SectionOf es).
Proof.
  unfold groupEntries.
  induction es as [|e es [IHm IHo]] using rev_ind.
  - split; [|done]. intros s. simpl. by rewrite lookup_total_empty.
  - rewrite foldl_app. simpl.
    destruct (foldl groupStep (∅, []) es) as [sections order] eqn:Hfold.
    simpl in IHm, IHo. unfold groupStep. simpl. split.
    + intros s. rewrite inSection_snoc.
      destruct (decide (SectionOf e = s)) as [<-|Hne].
      * by rewrite lookup_total_insert_eq, IHm.
      * by rewrite lookup_total_insert_ne, IHm by done.
    + rewrite map_app. simpl. rewrite firstOccurrences_snoc, IHo, IHm.
      destruct (decide (SectionOf e ∈ map SectionOf es)) as [Hin|Hnin].
      * destruct (Nat.eqb_spec (length (inSection (SectionOf e) es)) 0) as [H0|]; [|done].
        by apply inSection_empty in H0.
      * destruct (Nat.eqb_spec (length (inSection (SectionOf e) es)) 0) as [|Hn0]; [done|].
        exfalso. apply Hn0. by apply inSection_empty.
Qed.

End Grouping.

(** ** The rendering loop of Render *)

Section Rendering.

Variables (l : SectionLogger) (maxKeyWidth : Z).
Variable sections : gmap string (list logEntry).

Lemma entry_loop (results : list string) (es : list logEntry) :
  foldl (fun results entry => results ++ [entryLine l maxKeyWidth entry]) results es
  = results ++ map (entryLine l maxKeyWidth) es.
Proof.
  revert results. induction es as [|e es IH]; intros results; simpl.
  - by rewrite app_nil_r.
  - by rewrite IH, <- app_assoc.
Qed.

Lemma section_loop_Panic (msg : string) (order : list string) :
  foldl (renderSection l maxKeyWidth sections) (Panic msg) order = Panic msg.
Proof. induction order as [|s order IH]; simpl; [done | apply IH]. Qed.

(** The loop over [sectionOrder] appends, to what it starts from, the lines
    of the groups it passes. *)
Lemma section_loop (i : nat) (results : list string) (order : list string) :
  foldl (renderSection l maxKeyWidth sections) (Ok (i, results)) order
  = (body ← linesOf l maxKeyWidth (i =? 0)%nat
              (map (fun s => (s, sections !!! s)) order);
     Ok ((i + length order)%nat, results ++ body)).
Proof.
  revert i results. induction order as [|s order IH]; intros i results; simpl.
  - by rewrite app_nil_r, Nat.add_0_r.
  - unfold renderSection at 1. simpl.
    destruct (headerLine l (if (i =? 0)%nat then "┏" else "┣") s) as [h|msg]; simpl.
    + rewrite entry_loop, IH. simpl.
      destruct (linesOf l maxKeyWidth false _) as [below|msg]; simpl; [|done].
      f_equal. f_equal; [lia|]. by rewrite <- !app_assoc.
    + apply section_loop_Panic.
Qed.

End Rendering.

Lemma linesOf_set_complete (b : bool) (l : SectionLogger) (w : Z) (isFirst : bool)
    (groups : list (string * list logEntry)) :
  linesOf (set_complete b l) w isFirst groups = linesOf l w isFirst groups.
Proof.
  revert isFirst. induction groups as [|[s es] groups IH]; intros isFirst; simpl; [done|].
  by rewrite IH.
Qed.

Lemma groups_of_loop (es : list logEntry) :
  map (fun s => (s, (groupEntries es).1 !!! s)) (groupEntries es).2 = groupsOf es.
Proof.
  destruct (groupEntries_spec es) as [Hm Ho].
  rewrite Ho. unfold groupsOf. apply map_ext. intros s. by rewrite Hm.
Qed.

Lemma Render_fst (l : SectionLogger) : (Render l).1 = set_complete true l.
Proof. unfold Render. by destruct (groupEntries _). Qed.

(** [Render] computes the report of the spec. *)
Lemma Render_reportOf (l : SectionLogger) : (Render l).2 = reportOf l.
Proof.
  unfold Render, reportOf.
  pose proof (groups_of_loop (entries (set_complete true l))) as Hg.
  destruct (groupEntries (entries (set_complete true l))) as [sections order] eqn:Hge.
  simpl in Hg. cbn [snd].
  rewrite section_loop. simpl (0 =? 0)%nat. cbv beta.
  rewrite Hg, linesOf_set_complete.
  change (entries (set_complete true l)) with (entries l).
  change (calculateMaxWidth (set_complete true l)) with (calculateMaxWidth l).
  destruct (linesOf l (calculateMaxWidth l) true (groupsOf (entries l))) as [body|msg];
    simpl; [|done].
  destruct body as [|line body]; simpl; [done|].
  change (headerLine (set_complete true l) "┗" "") with (headerLine l "┗" "").
  done.
Qed.


(** ** The loop of Clear *)

Lemma clear_loop (section : string) (kept es : list logEntry) :
  foldl (fun newEntries entry =>
           if negb (String.eqb (SectionOf entry) section)
           then newEntries ++ [entry] else newEntries) kept es
  = kept ++ filter (fun e => SectionOf e ≠ section) es.
Proof.
  revert kept. induction es as [|e es IH]; intros kept; simpl.
  - by rewrite app_nil_r.
  - rewrite IH. destruct (String.eqb_spec (SectionOf e) section) as [Heq|Hne]; simpl.
    + by rewrite filter_cons_False by (intros Hn; by apply Hn).
    + by rewrite filter_cons_True, <- app_assoc by done.
Qed.

(** ** The backward scan of the streaming path *)

Lemma scanFor_false (section : string) (es : list logEntry) :
  scanFor section es = false ↔ Forall (fun e => SectionOf e ≠ section) es.
Proof.
  induction es as [|e es IH]; simpl.
  - split; [constructor | done].
  - rewrite Forall_cons, <- IH.
    destruct (String.eqb_spec (SectionOf e) section); split;
      try discriminate; try tauto; intros [? ?]; done.
Qed.

Lemma isNewSection_after_append (l : SectionLogger) (e : logEntry) (section : string) :
  isNewSection (set_entries (entries l ++ [e]) l) section
  = negb (scanFor section (reverse (entries l))).
Proof.
  unfold isNewSection. simpl. rewrite length_app. simpl.
  replace (length (entries l) + 1 - 1)%nat with (length (entries l)) by lia.
  by rewrite take_app_length.
Qed.

(** ** A late entry under a section the buffer does not have *)

Lemma groupsOf_new_section (es : list logEntry) (e : logEntry) :
  Forall (fun x => SectionOf x ≠ SectionOf e) es →
  groupsOf (es ++ [e]) = groupsOf es ++ [(SectionOf e, [e])].
Proof.
  intros Hnew. unfold groupsOf.
  assert (SectionOf e ∉ map SectionOf es) as Hnin.
  { intros Hin. apply list_elem_of_fmap in Hin as (x & Heq & Hx).
    rewrite Forall_forall in Hnew. by apply (Hnew x Hx). }
  rewrite map_app. simpl. rewrite firstOccurrences_snoc, decide_False by done.
  rewrite map_app. simpl. f_equal.
  - apply map_ext_in. intros s Hs. f_equal.
    rewrite inSection_snoc, decide_False; [done|].
    intros <-. by apply Hnin, firstOccurrences_elem, list_elem_of_In.
  - f_equal. f_equal. rewrite inSection_snoc, decide_True by done.
    apply inSection_empty in Hnin. apply length_zero_iff_nil in Hnin. by rewrite Hnin.
Qed.



(** ** The key width *)

Lemma max_loop (es : list logEntry) (a : Z) :
  0 ≤ a →
  foldl (fun maxWidth entry =>
           let width := Width entry in
           if maxWidth <? width then width else maxWidth) a es
  = Z.max a (maxWidthOf es).
Proof.
  revert a. induction es as [|e es IH]; intros a Ha; simpl; [lia|].
  destruct (Z.ltb_spec a (Width e)); rewrite IH; lia.
Qed.

Lemma calculateMaxWidth_max (l : SectionLogger) :
  calculateMaxWidth l = maxWidthOf (entries l).
Proof.
  unfold calculateMaxWidth. rewrite max_loop by done.
  assert (0 ≤ maxWidthOf (entries l)); [|lia].
  induction (entries l); simpl; lia.
Qed.

Lemma maxWidthOf_bounds (es : list logEntry) :
  0 ≤ maxWidthOf es ∧ ∀ e, e ∈ es → Width e ≤ maxWidthOf es.
Proof.
  induction es as [|x es [IH0 IH]]; simpl.
  - split; [done|]. intros e He. by apply elem_of_nil in He.
  - split; [lia|]. intros e He. apply elem_of_cons in He as [->|He]; [lia|].
    specialize (IH e He). lia.
Qed.








(** ** Where Render returns *)

Lemma border_line_returns (l : SectionLogger) (leftChar text : string) :
  fixedGlyphs text ≤ width l ≤ 2 ^ 61 →
  is_Ok (createBorderLine l leftChar text) = true.
Proof.
  intros Hw.
  assert (5 ≤ fixedGlyphs text) as Hfixed.
  { unfold fixedGlyphs, len. destruct (String.eqb text ""); lia. }
  rewrite createBorderLine_unfold, fillCount_room by (powers; lia).
  rewrite Repeat_Ok; [done | lia |].
  change (len "━") with 3. unfold maxInt. powers. lia.
Qed.

Lemma headerLine_returns (l : SectionLogger) (borderChar section : string) :
  fixedGlyphs section ≤ width l ≤ 2 ^ 61 →
  is_Ok (headerLine l borderChar section) = true.
Proof.
  intros Hw. unfold headerLine.
  pose proof (border_line_returns l borderChar section Hw) as H.
  by destruct (createBorderLine l borderChar section).
Qed.

Lemma linesOf_returns (l : SectionLogger) (w : Z) (isFirst : bool)
    (groups : list (string * list logEntry)) :
  Forall (fun g => fixedGlyphs g.1 ≤ width l ≤ 2 ^ 61) groups →
  is_Ok (linesOf l w isFirst groups) = true.
Proof.
  revert isFirst. induction groups as [|[s es] groups IH]; intros isFirst Hall; [done|].
  apply Forall_cons in Hall as [Hs Hall]. simpl in *.
  pose proof (headerLine_returns l (if isFirst then "┏" else "┣") s Hs) as Hh.
  destruct (headerLine l _ s) as [h|msg]; [|done]. simpl.
  specialize (IH false Hall). by destruct (linesOf l w false groups).
Qed.

(** [Render] returns, whenever the width has room for every section name of
    the buffer. *)
Lemma Render_returns (l : SectionLogger) :
  width l ≤ 2 ^ 61 →
  Forall (fun e => fixedGlyphs (SectionOf e) ≤ width l) (entries l) →
  is_Ok (Render l).2 = true.
Proof.
  intros Hw Hall. rewrite Render_reportOf. unfold reportOf.
  assert (Forall (fun g : string * list logEntry => fixedGlyphs g.1 ≤ width l ≤ 2 ^ 61)
            (groupsOf (entries l))) as Hgroups.
  { unfold groupsOf. apply Forall_forall. intros g Hg.
    apply list_elem_of_fmap in Hg as (s & -> & Hs). simpl.
    apply firstOccurrences_elem, list_elem_of_fmap in Hs as (e & -> & He).
    rewrite Forall_forall in Hall. split; [by apply Hall | done]. }
  pose proof (linesOf_returns l (calculateMaxWidth l) true _ Hgroups) as Hbody.
  destruct (linesOf l _ true _) as [body|msg] eqn:Hlines; [|done]. simpl.
  destruct body as [|line body]; [done|].
  assert (5 ≤ width l) as H5.
  { destruct (groupsOf (entries l)) as [|g gs]; [by simplify_eq/=|].
    apply Forall_cons in Hgroups as [[Hg _] _].
    unfold fixedGlyphs, len in Hg. destruct (String.eqb g.1 ""); lia. }
  pose proof (headerLine_returns l "┗" "") as Hf.
  destruct (headerLine l "┗" ""); [done|]. by apply Hf.
Qed.

(** * The claims *)

(** ** C4: the order of sections and of entries in a report *)

Example firstOccurrences_of_interleaving :
  firstOccurrences ["B"; "A"; "B"; "C"; "A"] = ["B"; "A"; "C"].
Proof. reflexivity. Qed.

(** C4. For every buffer, [Render] returns the report of the spec: the
    section groups stand in the order in which each distinct section name
    first occurs in the buffer, and under each header the lines of that
    section's entries stand in buffer order. *)
Theorem Render_first_occurrence_order (l : SectionLogger) :
  (Render l).2 =
    (body ← linesOf l (calculateMaxWidth l) true
              (map (fun s => (s, filter (fun e => SectionOf e = s) (entries l)))
                   (firstOccurrences (map SectionOf (entries l))));
     match body with
     | [] => Ok []
     | _ :: _ => footer ← headerLine l "┗" ""; Ok (body ++ [footer])
     end).
Proof. apply Render_reportOf. Qed.

(** ** C9: rendering twice *)

(** C9. A second [Render] right after a first one returns the same
    outcome: the same lines, or the same panic. *)
Theorem Render_twice_same (l : SectionLogger) :
  (Render (Render l).1).2 = (Render l).2.
Proof.
  rewrite !Render_reportOf. unfold Render, reportOf.
  destruct (groupEntries (entries (set_complete true l))) as [sections order].
  cbn [fst].
  change (entries (set_complete true l)) with (entries l).
  change (calculateMaxWidth (set_complete true l)) with (calculateMaxWidth l).
  rewrite linesOf_set_complete.
  by change (headerLine (set_complete true l) "┗" "") with (headerLine l "┗" "").
Qed.

(** ** C10: what Render changes *)

(** C10. [Render] sets [complete] and assigns to no other field.  On an
    empty buffer it returns no line and still sets the flag, so that the
    next [Add] or [Event] runs the streaming block: a header, as the buffer
    had no section yet, and the entry. *)
Theorem Render_frame (l : SectionLogger) :
  (Render l).1 = set_complete true l ∧
  entries (Render l).1 = entries l ∧
  prefix (Render l).1 = prefix l ∧
  startTime (Render l).1 = startTime l ∧
  lastTime (Render l).1 = lastTime l ∧
  width (Render l).1 = width l ∧
  (borderFg (Render l).1, borderBg (Render l).1, borderStyle (Render l).1)
    = (borderFg l, borderBg l, borderStyle l) ∧
  (prefixFg (Render l).1, prefixBg (Render l).1, prefixStyle (Render l).1)
    = (prefixFg l, prefixBg l, prefixStyle l) ∧
  complete (Render l).1 = true ∧
  let empty := set_entries [] l in
  (Render empty).2 = Ok [] ∧
  complete (Render empty).1 = true ∧
  (∀ now section label value,
     let step := Add now section label value (Render empty).1 in
     let entry := labelEntry (gostrings.ToUpper section) label value in
     step.2 = (header ← headerLine step.1 "┣" (gostrings.ToUpper section);
               Ok [header; renderEntry step.1 entry (calculateMaxWidth step.1)])) ∧
  (∀ now section value,
     let step := Event now section value (Render empty).1 in
     let entry := eventEntry section value now (startTime l) (lastTime l) in
     step.2 = (header ← headerLine step.1 "┣" section;
               Ok [header; renderEntry step.1 entry (calculateMaxWidth step.1)])).
Proof.
  rewrite !Render_fst. repeat (split; [reflexivity|]).
  split.
  - intros now section label value step entry. subst step entry.
    unfold Add. cbn [fst snd complete set_complete].
    set (l' := set_lastTime _ _). unfold streamLate.
    assert (isNewSection l' (gostrings.ToUpper section) = true) as -> by reflexivity.
    unfold headerLine. by destruct (createBorderLine _ _ _).
  - intros now section value step entry. subst step entry.
    unfold Event. cbn [fst snd complete set_complete].
    set (l' := set_lastTime _ _). unfold streamLate.
    assert (isNewSection l' section = true) as -> by reflexivity.
    unfold headerLine. by destruct (createBorderLine _ _ _).
Qed.

(** ** C8: Clear *)

(** C8. [Clear] keeps exactly the entries whose section differs from the
    upper-cased argument, in their order; it assigns to no other field, in
    particular not to [complete], [startTime] or [lastTime]; and it prints
    nothing, whatever [complete] is. *)
Theorem Clear_scoping_and_frame (now : Instant) (section : string) (l : SectionLogger) :
  entries (Clear section l)
    = filter (fun e => SectionOf e ≠ gostrings.ToUpper section) (entries l) ∧
  Clear section l = set_entries (entries (Clear section l)) l ∧
  complete (Clear section l) = complete l ∧
  startTime (Clear section l) = startTime l ∧
  lastTime (Clear section l) = lastTime l ∧
  (mutate now (MClear section) l).2 = Ok [].
Proof.
  unfold Clear. rewrite clear_loop. simpl. repeat split.
Qed.

(** ** C7: lastTime *)

(** C7, as stated, fails: [Clear] does not touch [lastTime].  A logger
    created at instant 0 and cleared at instant 5 still has [lastTime] 0. *)
Lemma Clear_does_not_stamp :
  ¬ (∀ (now : Instant) (m : mutation) (l : SectionLogger),
       lastTime (mutate now m l).1 = now).
Proof.
  intros H. specialize (H 5 (MClear "X") (New 0 "P")). discriminate H.
Qed.

(** C7, amended. [Add] and [Event] set [lastTime] to the clock reading of
    the call; [Clear] leaves [lastTime] as it was. *)
Theorem lastTime_after_mutation (now : Instant) (m : mutation) (l : SectionLogger) :
  lastTime (mutate now m l).1 =
    match m with
    | MAdd _ _ _ | MEvent _ _ => now
    | MClear _ => lastTime l
    end.
Proof. by destruct m. Qed.

(** ** C1: what is streamed and what is rendered *)




(** ** C2: the width of a border line *)

(** C2, evaluated. At the default width of 80 the closing border and a
    header with a name both have 81 glyphs: the corner, four dashes, the
    bracketed name if any, and the fill add up to 80, and the cap comes on
    top.  At width 20 the line has 21. *)
Theorem border_line_one_glyph_over :
  width (New 0 "P") = 80 ∧
  display.glyphsOf (createBorderLine (New 0 "P") "┗" "") = Ok 81%nat ∧
  display.glyphsOf (createBorderLine (New 0 "P") "┏" "ID") = Ok 81%nat ∧
  display.glyphsOf (createBorderLine (SetWidth 20 (New 0 "P")) "┣" "DIVERT") = Ok 21%nat.
Proof. repeat split; vm_compute; reflexivity. Qed.

(** ** C3: panics *)

(** C3, evaluated. At the default width a section name of 72 bytes makes
    the fill count negative and [strings.Repeat] panics: in [Render], and in
    a late [Add] that prints the header of that section.  So does any
    header at a width below 5 plus the bracketed name. *)
Theorem long_section_name_panics :
  (Render (Add 0 longName "k" "v" (New 0 "P")).1).2
    = Panic "strings: negative Repeat count" ∧
  (Add 1 longName "k" "v" (Render (New 0 "P")).1).2
    = Panic "strings: negative Repeat count" ∧
  (Render (SetWidth 10 (Add 0 "ID" "k" "v" (New 0 "P")).1)).2
    = Panic "strings: negative Repeat count".
Proof. repeat split; vm_compute; reflexivity. Qed.

(** ** C5: the column of the separator *)

(** C5, evaluated. The key width of the buffer is 13, the [Width()] of both
    events, but the label of the second event is 15 characters long: its
    separator stands at column 19, that of the first at column 17. *)
Theorem separator_columns_differ :
  calculateMaxWidth long_running = 13 ∧
  map RenderLabel (entries long_running) = ["0      0     "; "1000000 1000000"] ∧
  display.separatorColumns (Render long_running).2
    = Ok [None; Some 17%nat; Some 19%nat; None].
Proof. repeat split; vm_compute; reflexivity. Qed.

(** ** C6: the section of an event in the streaming path *)

(** C6, evaluated. Both kinds of entry read back the section in upper
    case.  But a late [Event] under ["divert"] scans for the argument as it
    was given, finds no entry whose section is ["divert"], and prints a
    header with the name in lower case; a late [Add] under ["divert"] scans
    for ["DIVERT"], finds the section and prints the entry alone. *)
Theorem late_Event_scans_for_raw_section :
  let byEvent := Event 1 "divert" "b" rendered_divert in
  let byAdd := Add 1 "divert" "k" "b" rendered_divert in
  map SectionOf (entries byEvent.1) = ["DIVERT"; "DIVERT"] ∧
  map SectionOf (entries byAdd.1) = ["DIVERT"; "DIVERT"] ∧
  isNewSection byEvent.1 "divert" = true ∧
  isNewSection byAdd.1 (gostrings.ToUpper "divert") = false ∧
  byEvent.2 = (header ← headerLine byEvent.1 "┣" "divert";
               Ok [header; renderEntry byEvent.1 (eventEntry "divert" "b" 1 0 0) 13]) ∧
  byAdd.2 = Ok [renderEntry byAdd.1 (labelEntry "DIVERT" "k" "b") 13] ∧
  headerLine byEvent.1 "┣" "divert" ≠ headerLine byEvent.1 "┣" "DIVERT".
Proof.
  repeat split; try (vm_compute; reflexivity).
  vm_compute. discriminate.
Qed.

(** * Further properties *)

Import runs samples plain colours.

(** ** Runs of operations *)

Lemma perform_frame (op : operation) (l : SectionLogger) :
  startTime (perform op l).1 = startTime l ∧
  prefix (perform op l).1 = prefix l ∧
  complete (perform op l).1 = complete l || isRender op.
Proof.
  destruct op as [now [s k v|s v|s]| | | |]; simpl;
    rewrite ?Render_fst, ?orb_false_r, ?orb_true_r; done.
Qed.

(** X1. Whatever operations run on a logger ([Add], [Event], [Clear],
    [Render], the three setters), [startTime] and [prefix] stay as they
    were, and [complete] is true afterwards exactly if it was true before or
    one of the operations was a [Render]: no operation resets the flag. *)
Theorem rendered_flag_is_permanent (ops : list operation) (l : SectionLogger) :
  startTime (run ops l).1 = startTime l ∧
  prefix (run ops l).1 = prefix l ∧
  complete (run ops l).1 = complete l || existsb isRender ops.
Proof.
  revert l. induction ops as [|op ops IH]; intros l; simpl.
  - by rewrite orb_false_r.
  - destruct (IH (perform op l).1) as (Hs & Hp & Hc).
    destruct (perform_frame op l) as (Hs' & Hp' & Hc').
    rewrite Hs, Hp, Hc, Hs', Hp', Hc'. by rewrite orb_assoc.
Qed.

(** X2. On a logger that has not rendered, operations other than [Render]
    print nothing and do not panic, whatever the width and the section
    names, and the logger still has not rendered after them. *)
Theorem buffering_phase_is_silent (ops : list operation) (l : SectionLogger) :
  complete l = false →
  existsb isRender ops = false →
  Forall (fun out => out = Ok []) (run ops l).2 ∧
  complete (run ops l).1 = false.
Proof.
  revert l. induction ops as [|op ops IH]; intros l Hc Hr; simpl in *.
  - by split.
  - apply orb_false_iff in Hr as [Hop Hr].
    destruct (perform_frame op l) as (_ & _ & Hc').
    rewrite Hc, Hop in Hc'. destruct (IH _ Hc' Hr) as [Hall Hfin].
    split; [|done]. constructor; [|done].
    destruct op as [now [s k v|s v|s]| | | |]; simpl in *; try done; by rewrite Hc.
Qed.

Lemma buffering_phase_is_silent_witness :
  (complete (New 0 "P") = false ∧ existsb isRender quiet_ops = false) ∧
  Forall (fun out => out = Ok []) (run quiet_ops (New 0 "P")).2 ∧
  complete (run quiet_ops (New 0 "P")).1 = false.
Proof.
  split; [by split|].
  exact (buffering_phase_is_silent quiet_ops (New 0 "P") eq_refl eq_refl).
Defined.

(** ** The times of the events *)

Lemma chronological_weaken start lo lo' es :
  lo' ≤ lo → chronological start lo es → chronological start lo' es.
Proof.
  intros Hlo. destruct es as [|[s k v|s v ts st pt] es]; simpl; [done| |].
  - revert lo lo' Hlo. induction es as [|[s' k' v'|s' v' ts' st' pt'] es IH];
      intros lo lo' Hlo; simpl; [done|by apply IH|].
    intros (? & ? & ? & ?). do 2 (split; [done|]). split; [lia|done].
  - intros (? & ? & ? & ?). do 2 (split; [done|]). split; [lia|done].
Qed.

Lemma chronological_filter (P : logEntry → Prop) `{∀ e, Decision (P e)} start lo es :
  chronological start lo es → chronological start lo (filter P es).
Proof.
  revert lo. induction es as [|e es IH]; intros lo; [done|].
  destruct (decide (P e)) as [HP|HP].
  - rewrite filter_cons_True by done.
    destruct e as [s k v|s v ts st pt]; simpl; [apply IH|].
    intros (? & ? & ? & Hrest). do 3 (split; [done|]). by apply IH.
  - rewrite filter_cons_False by done.
    destruct e as [s k v|s v ts st pt]; simpl; [apply IH|].
    intros (? & ? & ? & Hrest). apply IH. by apply (chronological_weaken start ts).
Qed.

Lemma chronological_snoc start lo es s v now prev :
  chronological start lo es →
  Forall (stampedBy now) es →
  start ≤ prev ≤ now → lo ≤ now →
  chronological start lo (es ++ [eventEntry s v now start prev]).
Proof.
  revert lo. induction es as [|[s' k' v'|s' v' ts st pt] es IH]; intros lo Hch Hall Hp Hlo;
    simpl in *.
  - done.
  - apply Forall_cons in Hall as [_ Hall]. by apply IH.
  - apply Forall_cons in Hall as [Hts Hall]. simpl in Hts.
    destruct Hch as (? & ? & ? & Hrest). do 3 (split; [done|]). by apply IH.
Qed.

Lemma chronological_snoc_label start lo es s k v :
  chronological start lo es → chronological start lo (es ++ [labelEntry s k v]).
Proof.
  revert lo. induction es as [|[s' k' v'|s' v' ts st pt] es IH]; intros lo; simpl; try done.
  - apply IH.
  - intros (? & ? & ? & Hrest). do 3 (split; [done|]). by apply IH.
Qed.

Lemma stampedBy_mono hi hi' es :
  hi ≤ hi' → Forall (stampedBy hi) es → Forall (stampedBy hi') es.
Proof.
  intros Hhi Hall. eapply Forall_impl; [exact Hall|].
  intros [s k v|s v ts st pt]; simpl; lia.
Qed.

Lemma entries_Clear section l :
  entries (Clear section l)
  = filter (fun e => SectionOf e ≠ gostrings.ToUpper section) (entries l).
Proof. unfold Clear. by rewrite clear_loop. Qed.

Lemma Forall_filter_keeps {A} (P Q : A → Prop) `{∀ x, Decision (P x)} (l : list A) :
  Forall Q l → Forall Q (filter P l).
Proof.
  rewrite !Forall_forall. intros HQ x Hx.
  apply list_elem_of_filter in Hx as [_ Hx]. by apply HQ.
Qed.

Lemma inTime_mutate (now t : Instant) (m : mutation) (l : SectionLogger) :
  t ≤ now → inTime t l → inTime now (mutate now m l).1.
Proof.
  intros Ht ((Hs & Hl) & Hstamp & Hch).
  destruct m as [s k v|s v|s]; unfold mutate, inTime; cbn [fst].
  - unfold Add. cbn. split; [lia|]. split.
    + apply Forall_app. split; [|by repeat constructor].
      apply (stampedBy_mono (lastTime l)); [lia | done].
    + by apply chronological_snoc_label.
  - unfold Event. cbn. split; [lia|]. split.
    + apply Forall_app. split; [|repeat constructor; simpl; lia].
      apply (stampedBy_mono (lastTime l)); [lia | done].
    + apply chronological_snoc; try done; try lia.
      apply (stampedBy_mono (lastTime l)); [lia | done].
  - change (startTime (Clear s l)) with (startTime l).
    change (lastTime (Clear s l)) with (lastTime l).
    rewrite entries_Clear. split; [lia|]. split.
    + by apply Forall_filter_keeps.
    + by apply chronological_filter.
Qed.

Lemma inTime_run (ops : list operation) (t : Instant) (l : SectionLogger) :
  inTime t l → clockOrdered t ops → ∃ t', inTime t' (run ops l).1.
Proof.
  revert t l. induction ops as [|op ops IH]; intros t l Hin Hclock.
  - by exists t.
  - destruct op as [now m| | | |]; cbn [run perform fst].
    + destruct Hclock as [Ht Hclock]. apply (IH now); [|done].
      by apply (inTime_mutate now t).
    + apply (IH t); [|done]. rewrite Render_fst. exact Hin.
    + apply (IH t); [|done]. exact Hin.
    + apply (IH t); [|done]. exact Hin.
    + apply (IH t); [|done]. exact Hin.
Qed.

Lemma Sub_mono (t1 t2 u : Instant) : t1 ≤ t2 → Sub t1 u ≤ Sub t2 u.
Proof. unfold Sub. lia. Qed.

Lemma Sub_nonneg (t u : Instant) : u ≤ t → 0 ≤ Sub t u.
Proof. unfold Sub, minDuration, maxDuration. lia. Qed.

Lemma Milliseconds_mono (d1 d2 : Z) : d1 ≤ d2 → Milliseconds d1 ≤ Milliseconds d2.
Proof. intros H. unfold Milliseconds. apply Z.quot_le_mono; lia. Qed.

Lemma Milliseconds_nonneg (d : Z) : 0 ≤ d → 0 ≤ Milliseconds d.
Proof. intros H. unfold Milliseconds. apply Z.quot_pos; lia. Qed.

Lemma chronological_counts start lo es :
  start ≤ lo →
  chronological start lo es →
  Forall (fun a => Milliseconds (Sub lo start) ≤ a) (sinceStarts es) ∧
  StronglySorted Z.le (sinceStarts es) ∧
  Forall (fun p => 0 ≤ p) (sincePrevs es).
Proof.
  revert lo. induction es as [|[s k v|s v ts st pt] es IH]; intros lo Hlo Hch.
  - repeat split; constructor.
  - by apply IH.
  - destruct Hch as (-> & Hp & Hts & Hrest).
    destruct (IH ts ltac:(lia) Hrest) as (Hlow & Hsorted & Hprev).
    unfold sinceStarts, sincePrevs in *. simpl. repeat split.
    + constructor; [by apply Milliseconds_mono, Sub_mono|].
      eapply Forall_impl; [exact Hlow|]. intros a Ha. simpl in Ha.
      etrans; [|exact Ha]. by apply Milliseconds_mono, Sub_mono.
    + by constructor.
    + constructor; [|done]. apply Milliseconds_nonneg, Sub_nonneg. lia.
Qed.

(** X3. In a run from [New] whose clock readings do not go back, the
    first millisecond counts of the buffered events (since the start) do not
    decrease along the buffer, and no count of an event, since the start or
    since the previous [Add] or [Event], is negative. *)
Theorem event_times_are_monotone (t0 : Instant) (p : string) (ops : list operation) :
  clockOrdered t0 ops →
  let l := (run ops (New t0 p)).1 in
  StronglySorted Z.le (sinceStarts (entries l)) ∧
  Forall (fun a => 0 ≤ a) (sinceStarts (entries l)) ∧
  Forall (fun b => 0 ≤ b) (sincePrevs (entries l)).
Proof.
  intros Hclock l.
  assert (inTime t0 (New t0 p)) as Hin.
  { unfold inTime. simpl. repeat split; try lia; constructor. }
  destruct (inTime_run ops t0 _ Hin Hclock) as (t' & (Hs & Hl) & Hstamp & Hch).
  fold l in Hs, Hl, Hstamp, Hch.
  destruct (chronological_counts _ _ _ (Z.le_refl _) Hch) as (Hlow & Hsorted & Hprev).
  repeat split; try done.
  eapply Forall_impl; [exact Hlow|]. intros a Ha. simpl in Ha.
  etrans; [|exact Ha]. apply Milliseconds_nonneg, Sub_nonneg. lia.
Qed.

Lemma event_times_are_monotone_witness :
  clockOrdered 0 timed_ops ∧
  sinceStarts (entries (run timed_ops (New 0 "P")).1) = [5; 30] ∧
  StronglySorted Z.le (sinceStarts (entries (run timed_ops (New 0 "P")).1)) ∧
  Forall (fun a => 0 ≤ a) (sinceStarts (entries (run timed_ops (New 0 "P")).1)) ∧
  Forall (fun b => 0 ≤ b) (sincePrevs (entries (run timed_ops (New 0 "P")).1)).
Proof.
  assert (clockOrdered 0 timed_ops) as Hclock by (simpl; lia).
  split; [done|]. split; [reflexivity|].
  exact (event_times_are_monotone 0 "P" timed_ops Hclock).
Defined.

(** ** Clearing and streaming *)

Lemma set_entries_same (l : SectionLogger) : set_entries (entries l) l = l.
Proof. by destruct l. Qed.

Lemma Clear_as_filter section l :
  Clear section l
  = set_entries (filter (fun e => SectionOf e ≠ gostrings.ToUpper section) (entries l)) l.
Proof. unfold Clear. by rewrite clear_loop. Qed.

Lemma filter_all {A} (P : A → Prop) `{∀ x, Decision (P x)} (l : list A) :
  Forall P l → filter P l = l.
Proof.
  induction l as [|x l IH]; [done|]. intros Hall. apply Forall_cons in Hall as [Hx Hall].
  by rewrite filter_cons_True, IH.
Qed.

(** X4. [Clear] of a section that no buffered entry has changes nothing:
    the logger after it is the logger before it. *)
Theorem Clear_unknown_section_is_noop (section : string) (l : SectionLogger) :
  Forall (fun e => SectionOf e ≠ gostrings.ToUpper section) (entries l) →
  Clear section l = l.
Proof.
  intros Hall. rewrite Clear_as_filter, filter_all by done. apply set_entries_same.
Qed.

Lemma Clear_leaves_none (a : string) (l : SectionLogger) :
  Forall (fun e => SectionOf e ≠ gostrings.ToUpper a) (entries (Clear a l)).
Proof.
  rewrite entries_Clear. apply Forall_forall. intros e He.
  by apply list_elem_of_filter in He as [He _].
Qed.

(** X5. Clearing a section twice is clearing it once, and two [Clear]s
    give the same logger in either order. *)
Theorem Clear_idempotent_and_commutes (a b : string) (l : SectionLogger) :
  Clear a (Clear a l) = Clear a l ∧
  Clear a (Clear b l) = Clear b (Clear a l).
Proof.
  split.
  - rewrite (Clear_as_filter a (Clear a l)), filter_all by apply Clear_leaves_none.
    apply set_entries_same.
  - rewrite !Clear_as_filter. unfold set_entries. cbn.
    f_equal. rewrite !list_filter_filter. apply list_filter_iff. intros e. tauto.
Qed.

Lemma Clear_unknown_section_is_noop_witness :
  Forall (fun e => SectionOf e ≠ gostrings.ToUpper "zz") (entries one_label) ∧
  Clear "zz" one_label = one_label.
Proof.
  assert (Forall (fun e => SectionOf e ≠ gostrings.ToUpper "zz") (entries one_label))
    as Hnone by (repeat constructor; discriminate).
  split; [done|]. exact (Clear_unknown_section_is_noop "zz" one_label Hnone).
Defined.

(** X6. [Clear] removes what [Add] and [Event] filed under the same
    section name, whatever the case in which the two names were written: if
    the names agree in upper case, the buffer after [Add] (or [Event]) and
    [Clear] is the buffer after [Clear] alone. *)
Theorem Clear_removes_what_was_added
    (now : Instant) (section section' label value : string) (l : SectionLogger) :
  gostrings.ToUpper section' = gostrings.ToUpper section →
  entries (Clear section' (Add now section label value l).1) = entries (Clear section' l) ∧
  entries (Clear section' (Event now section value l).1) = entries (Clear section' l).
Proof.
  intros Hup. rewrite !entries_Clear. unfold Add, Event.
  cbn [fst entries set_lastTime set_entries]. rewrite !filter_app.
  split.
  - rewrite (filter_cons_False _ (labelEntry _ _ _)).
    + by rewrite filter_nil, app_nil_r.
    + intros Hne. apply Hne. simpl. congruence.
  - rewrite (filter_cons_False _ (eventEntry _ _ _ _ _)).
    + by rewrite filter_nil, app_nil_r.
    + intros Hne. apply Hne. simpl. congruence.
Qed.

Lemma Clear_removes_what_was_added_witness :
  gostrings.ToUpper "Divert" = gostrings.ToUpper "divert" ∧
  entries (Clear "Divert" (Add 1 "divert" "k" "v" rendered_divert).1)
    = entries (Clear "Divert" rendered_divert) ∧
  entries (Clear "Divert" (Event 1 "divert" "v" rendered_divert).1)
    = entries (Clear "Divert" rendered_divert).
Proof.
  split; [reflexivity|].
  exact (Clear_removes_what_was_added 1 "divert" "Divert" "k" "v" rendered_divert eq_refl).
Defined.

Lemma scanFor_true (section : string) (es : list logEntry) :
  scanFor section es = true ↔ Exists (fun e => SectionOf e = section) es.
Proof.
  induction es as [|e es IH]; simpl.
  - split; [done | intros H; inversion H].
  - rewrite Exists_cons, <- IH.
    destruct (String.eqb_spec (SectionOf e) section); split; tauto || done.
Qed.

Lemma streamLate_after_append (l : SectionLogger) (now : Instant) (key : string) (e : logEntry) :
  let l' := set_lastTime now (set_entries (entries l ++ [e]) l) in
  streamLate l' key e =
    if scanFor key (reverse (entries l))
    then Ok [renderEntry l' e (calculateMaxWidth l')]
    else header ← headerLine l' "┣" key;
         Ok [header; renderEntry l' e (calculateMaxWidth l')].
Proof.
  intros l'. unfold streamLate.
  change (isNewSection l' key) with (isNewSection (set_entries (entries l ++ [e]) l) key).
  rewrite isNewSection_after_append.
  destruct (scanFor key (reverse (entries l))); simpl; [done|].
  unfold headerLine. by destruct (createBorderLine l' "┣" key).
Qed.

(** X7. After a [Render], an [Add] under a section that the buffer has
    prints one line, the streamed entry, with no header, and does not panic
    whatever the width; so does an [Event] whose section argument is in
    upper case. *)
Theorem late_entry_in_known_section
    (now : Instant) (l : SectionLogger) (section : string) :
  complete l = true →
  Exists (fun e => SectionOf e = gostrings.ToUpper section) (entries l) →
  (∀ label value,
     let step := Add now section label value l in
     step.2 = Ok [renderEntry step.1 (labelEntry (gostrings.ToUpper section) label value)
                    (calculateMaxWidth step.1)]) ∧
  (gostrings.ToUpper section = section →
   ∀ value,
     let step := Event now section value l in
     step.2 = Ok [renderEntry step.1 (eventEntry section value now (startTime l) (lastTime l))
                    (calculateMaxWidth step.1)]).
Proof.
  intros Hc Hex.
  assert (scanFor (gostrings.ToUpper section) (reverse (entries l)) = true) as Hscan.
  { apply scanFor_true. rewrite Exists_exists in *. destruct Hex as (e & He & Hs).
    exists e. split; [by apply elem_of_reverse | done]. }
  split.
  - intros label value step. subst step. unfold Add. cbn [fst snd]. rewrite Hc.
    by rewrite streamLate_after_append, Hscan.
  - intros Hup value step. subst step. unfold Event. cbn [fst snd]. rewrite Hc.
    rewrite streamLate_after_append. rewrite Hup in Hscan. by rewrite Hscan.
Qed.

Lemma late_entry_in_known_section_witness :
  (complete rendered_one = true ∧
   Exists (fun e => SectionOf e = gostrings.ToUpper "A") (entries rendered_one) ∧
   gostrings.ToUpper "A" = "A") ∧
  (Add 1 "A" "k2" "v2" rendered_one).2
    = Ok [renderEntry (Add 1 "A" "k2" "v2" rendered_one).1 (labelEntry "A" "k2" "v2") 2] ∧
  (Event 1 "A" "v2" rendered_one).2
    = Ok [renderEntry (Event 1 "A" "v2" rendered_one).1 (eventEntry "A" "v2" 1 0 0) 13].
Proof.
  assert (Exists (fun e => SectionOf e = gostrings.ToUpper "A") (entries rendered_one))
    as Hex by (by left).
  split; [by repeat split|]. split.
  - exact (proj1 (late_entry_in_known_section 1 rendered_one "A" eq_refl Hex) "k2" "v2").
  - exact (proj2 (late_entry_in_known_section 1 rendered_one "A" eq_refl Hex) eq_refl "v2").
Defined.

(** X8. After a [Render] and a [Clear] of a section, the section is new
    again: the next [Add] under it prints (or panics on) a continuation
    header before the entry line. *)
Theorem Clear_then_late_Add_prints_header
    (now : Instant) (l : SectionLogger) (section label value : string) :
  complete l = true →
  let step := Add now section label value (Clear section l) in
  step.2 = (header ← headerLine step.1 "┣" (gostrings.ToUpper section);
            Ok [header; renderEntry step.1 (labelEntry (gostrings.ToUpper section) label value)
                          (calculateMaxWidth step.1)]).
Proof.
  intros Hc step. subst step. unfold Add. cbn [fst snd].
  change (complete (Clear section l)) with (complete l). rewrite Hc.
  rewrite streamLate_after_append.
  assert (scanFor (gostrings.ToUpper section) (reverse (entries (Clear section l))) = false)
    as ->; [|done].
  apply scanFor_false, Forall_reverse.
  apply Clear_leaves_none.
Qed.

Lemma Clear_then_late_Add_prints_header_witness :
  complete rendered_one = true ∧
  (Add 1 "a" "k2" "v2" (Clear "a" rendered_one)).2
    = (header ← headerLine (Add 1 "a" "k2" "v2" (Clear "a" rendered_one)).1 "┣" "A";
       Ok [header;
           renderEntry (Add 1 "a" "k2" "v2" (Clear "a" rendered_one)).1
             (labelEntry "A" "k2" "v2") 2]).
Proof.
  split; [reflexivity|].
  exact (Clear_then_late_Add_prints_header 1 rendered_one "a" "k2" "v2" eq_refl).
Defined.

(** ** The key width and the shape of a report *)

(** ** The key width *)

Lemma maxWidthOf_least (es : list logEntry) (b : Z) :
  0 ≤ b → Forall (fun e => Width e ≤ b) es → maxWidthOf es ≤ b.
Proof.
  intros Hb. induction es as [|e es IH]; simpl; [lia|].
  intros Hall. apply Forall_cons in Hall as [He Hall]. specialize (IH Hall). lia.
Qed.

(** X9. The key width is the least bound of the widths: it is not
    negative, no entry of the buffer is wider, and every non-negative bound
    of the widths of the buffer is at least the key width (so the key width
    of an empty buffer is 0). *)
Theorem calculateMaxWidth_is_least_bound (l : SectionLogger) :
  0 ≤ calculateMaxWidth l ∧
  Forall (fun e => Width e ≤ calculateMaxWidth l) (entries l) ∧
  ∀ b, 0 ≤ b → Forall (fun e => Width e ≤ b) (entries l) → calculateMaxWidth l ≤ b.
Proof.
  rewrite calculateMaxWidth_max.
  destruct (maxWidthOf_bounds (entries l)) as [H0 Hub].
  split; [done|]. split; [by apply Forall_forall|].
  intros b Hb Hall. by apply maxWidthOf_least.
Qed.

Lemma maxWidthOf_snoc (es : list logEntry) (e : logEntry) :
  maxWidthOf (es ++ [e]) = Z.max (maxWidthOf es) (Width e).
Proof.
  induction es as [|x es IH]; simpl; [|rewrite IH; lia].
  destruct (maxWidthOf_bounds [e]) as [H0 _]. simpl in H0. lia.
Qed.

Lemma Width_nonneg (e : logEntry) : 0 ≤ Width e.
Proof. destruct e; simpl; unfold len; lia. Qed.

Lemma maxWidthOf_filter (P : logEntry → Prop) `{∀ e, Decision (P e)} (es : list logEntry) :
  maxWidthOf (filter P es) ≤ maxWidthOf es.
Proof.
  induction es as [|e es IH]; [done|].
  destruct (decide (P e)).
  - rewrite filter_cons_True by done. simpl. lia.
  - rewrite filter_cons_False by done. simpl. lia.
Qed.

(** X10. [Add] raises the key width to the length of the new label if
    that is larger, [Event] raises it to 13 if it was smaller, and [Clear]
    never raises it. *)
Theorem key_width_after_mutation (now : Instant) (m : mutation) (l : SectionLogger) :
  match m with
  | MAdd _ label _ =>
      calculateMaxWidth (mutate now m l).1 = Z.max (calculateMaxWidth l) (len label)
  | MEvent _ _ =>
      calculateMaxWidth (mutate now m l).1 = Z.max (calculateMaxWidth l) 13
  | MClear _ =>
      calculateMaxWidth (mutate now m l).1 ≤ calculateMaxWidth l
  end.
Proof.
  destruct m as [s k v|s v|s]; rewrite !calculateMaxWidth_max; cbn [mutate fst].
  - unfold Add. cbn [fst entries set_lastTime set_entries]. by rewrite maxWidthOf_snoc.
  - unfold Event. cbn [fst entries set_lastTime set_entries]. by rewrite maxWidthOf_snoc.
  - rewrite entries_Clear. apply maxWidthOf_filter.
Qed.

Lemma linesOf_length l w isFirst groups lines :
  linesOf l w isFirst groups = Ok lines →
  length lines = (length groups + groupSizes groups)%nat.
Proof.
  revert isFirst lines. induction groups as [|[s es] groups IH]; intros isFirst lines; simpl.
  - by intros [= <-].
  - destruct (headerLine l _ s) as [h|msg]; simpl; [|done].
    destruct (linesOf l w false groups) as [below|msg] eqn:Hbelow; simpl; [|done].
    intros [= <-]. simpl. rewrite length_app, length_map, (IH false below Hbelow).
    unfold groupSizes. lia.
Qed.

Lemma sum_none_more (names : list string) (x : string) (f : string → nat) :
  x ∉ names →
  sum_list_with (fun s => if decide (x = s) then S (f s) else f s) names
  = sum_list_with f names.
Proof.
  induction names as [|n names IH]; intros Hn; [done|].
  apply not_elem_of_cons in Hn as [Hne Hn]. simpl.
  by rewrite decide_False, IH.
Qed.

Lemma sum_one_more (names : list string) (x : string) (f : string → nat) :
  NoDup names → x ∈ names →
  sum_list_with (fun s => if decide (x = s) then S (f s) else f s) names
  = S (sum_list_with f names).
Proof.
  induction names as [|n names IH]; intros Hnd Hin; [by apply elem_of_nil in Hin|].
  apply NoDup_cons in Hnd as [Hn Hnd]. simpl.
  destruct (decide (x = n)) as [->|Hne].
  - by rewrite sum_none_more.
  - apply elem_of_cons in Hin as [?|Hin]; [done|]. rewrite IH by done. lia.
Qed.

Lemma sum_list_with_map {A B} (g : A → B) (f : B → nat) (l : list A) :
  sum_list_with f (map g l) = sum_list_with (fun a => f (g a)) l.
Proof. induction l as [|a l IH]; simpl; [done | by rewrite IH]. Qed.

Lemma sum_list_with_ext {A} (f g : A → nat) (l : list A) :
  (∀ a, f a = g a) → sum_list_with f l = sum_list_with g l.
Proof. intros H. induction l as [|a l IH]; simpl; [done | by rewrite H, IH]. Qed.

Lemma groupSizes_groupsOf (es : list logEntry) :
  groupSizes (groupsOf es) = length es.
Proof.
  induction es as [|e es IH] using rev_ind; [done|].
  rewrite length_app. simpl.
  destruct (decide (SectionOf e ∈ map SectionOf es)) as [Hin|Hnin].
  - unfold groupSizes, groupsOf in *. rewrite map_app. simpl.
    rewrite firstOccurrences_snoc, decide_True by done.
    rewrite sum_list_with_map in *. simpl in *.
    rewrite (sum_list_with_ext _ (fun s => if decide (SectionOf e = s)
                                          then S (length (inSection s es))
                                          else length (inSection s es))).
    + rewrite sum_one_more, IH; [lia | apply firstOccurrences_NoDup |].
      by apply firstOccurrences_elem.
    + intros s. rewrite inSection_snoc.
      destruct (decide (SectionOf e = s)); [|done]. rewrite length_app. simpl. lia.
  - rewrite groupsOf_new_section.
    + unfold groupSizes in *. rewrite sum_list_with_app, IH. simpl. lia.
    + apply Forall_forall. intros x Hx Heq. apply Hnin. rewrite <- Heq.
      apply list_elem_of_fmap. eauto.
Qed.

(** X11. When [Render] returns on a buffer that is not empty, the first
    line is the header of the section of the first buffered entry with the
    top-left corner, the last line is the closing border, and the number of
    lines is the number of distinct sections plus the number of entries
    plus one. *)
Theorem Render_shape (l : SectionLogger) (first : logEntry) (rest : list logEntry)
    (lines : list string) :
  entries l = first :: rest →
  (Render l).2 = Ok lines →
  ∃ header middle footer,
    lines = header :: middle ++ [footer] ∧
    headerLine l "┏" (SectionOf first) = Ok header ∧
    headerLine l "┗" "" = Ok footer ∧
    length lines
    = (length (firstOccurrences (map SectionOf (entries l))) + length (entries l) + 1)%nat.
Proof.
  intros Hes. rewrite Render_reportOf. unfold reportOf.
  destruct (linesOf l (calculateMaxWidth l) true (groupsOf (entries l)))
    as [body|msg] eqn:Hbody; simpl; [|done].
  pose proof (linesOf_length _ _ _ _ _ Hbody) as Hlen.
  rewrite groupSizes_groupsOf in Hlen.
  unfold groupsOf in Hlen at 1. rewrite length_map in Hlen.
  rewrite Hes in Hbody. unfold groupsOf in Hbody. simpl in Hbody.
  destruct (headerLine l "┏" (SectionOf first)) as [h|msg]; simpl in Hbody; [|done].
  destruct (linesOf l _ false _) as [below|msg]; simpl in Hbody; [|done].
  injection Hbody as <-.
  destruct (headerLine l "┗" "") as [f|msg]; simpl; [|done].
  intros [= <-]. eexists h, _, f. split; [done|]. split; [done|]. split; [done|].
  simpl in *. rewrite length_app. simpl. lia.
Qed.

Lemma Render_shape_witness :
  ∃ first rest lines,
    entries long_running = first :: rest ∧
    (Render long_running).2 = Ok lines ∧
    length lines = 4%nat ∧
    ∃ header middle footer,
      lines = header :: middle ++ [footer] ∧
      headerLine long_running "┏" (SectionOf first) = Ok header ∧
      headerLine long_running "┗" "" = Ok footer ∧
      length lines
      = (length (firstOccurrences (map SectionOf (entries long_running)))
         + length (entries long_running) + 1)%nat.
Proof.
  eexists _, _, _. split; [reflexivity|].
  assert (∀ lines, (Render long_running).2 = Ok lines →
            (Render long_running).2 = Ok lines ∧ length lines = 4%nat) as Hfour.
  { intros lines Hl. split; [done|]. vm_compute in Hl. by injection Hl as <-. }
  refine (let H := eq_refl : (Render long_running).2 = Ok _ in
          conj (proj1 (Hfour _ H)) (conj (proj2 (Hfour _ H))
            (Render_shape long_running _ _ _ eq_refl H))).
Defined.

(** ** When a report is returned *)

Lemma headerLine_cases (l : SectionLogger) (corner section : string) :
  - 2 ^ 61 ≤ width l ≤ 2 ^ 61 → fixedGlyphs section ≤ 2 ^ 61 →
  (fixedGlyphs section ≤ width l ∧ is_Ok (headerLine l corner section) = true) ∨
  (width l < fixedGlyphs section ∧ headerLine l corner section = Panic negativeRepeat).
Proof.
  intros Hw Hs. destruct (Z_le_gt_dec (fixedGlyphs section) (width l)) as [Hfit|Hno].
  - left. split; [done|]. apply headerLine_returns. lia.
  - right. split; [lia|]. unfold headerLine.
    rewrite border_line_panics; [done | lia | done].
Qed.

Lemma linesOf_cases (l : SectionLogger) (w : Z) (isFirst : bool)
    (groups : list (string * list logEntry)) :
  - 2 ^ 61 ≤ width l ≤ 2 ^ 61 →
  Forall (fun g => fixedGlyphs g.1 ≤ 2 ^ 61) groups →
  (Forall (fun g => fixedGlyphs g.1 ≤ width l) groups ∧
   is_Ok (linesOf l w isFirst groups) = true) ∨
  (¬ Forall (fun g => fixedGlyphs g.1 ≤ width l) groups ∧
   linesOf l w isFirst groups = Panic negativeRepeat).
Proof.
  intros Hw. revert isFirst. induction groups as [|[s es] groups IH]; intros isFirst Hall.
  - left. by split.
  - apply Forall_cons in Hall as [Hs Hall]. simpl in Hs. simpl.
    destruct (headerLine_cases l (if isFirst then "┏" else "┣") s Hw Hs)
      as [[Hfit Hok]|[Hno Hpanic]].
    + destruct (headerLine l _ s) as [h|msg]; [|done]. simpl.
      destruct (IH false Hall) as [[Hfits Hoks]|[Hnot Hpanics]].
      * left. split; [by constructor|]. by destruct (linesOf l w false groups).
      * right. split; [|by rewrite Hpanics].
        intros Hc. apply Forall_cons in Hc as [_ Hc]. by apply Hnot.
    + right. rewrite Hpanic. split; [|done].
      intros Hc. apply Forall_cons in Hc as [Hc _]. simpl in Hc. lia.
Qed.

Lemma groups_fit_iff (es : list logEntry) (P : string → Prop) :
  Forall (fun g : string * list logEntry => P g.1) (groupsOf es)
  ↔ Forall (fun e => P (SectionOf e)) es.
Proof.
  unfold groupsOf. rewrite !Forall_forall. split.
  - intros H e He. apply (H (SectionOf e, inSection (SectionOf e) es)).
    apply list_elem_of_fmap. exists (SectionOf e). split; [done|].
    apply firstOccurrences_elem, list_elem_of_fmap. eauto.
  - intros H g Hg. apply list_elem_of_fmap in Hg as (s & -> & Hs). simpl.
    apply firstOccurrences_elem, list_elem_of_fmap in Hs as (e & -> & He). by apply H.
Qed.

(** X12. With the width and the lengths of the section names within
    2^61, [Render] returns exactly if the width has room for the corner, the
    four dashes and the bracketed name of every section of the buffer
    ([5 + len(name) + 4 <= width], and 5 for the empty name); otherwise it
    panics in [strings.Repeat] with a negative count. *)
Theorem Render_returns_iff (l : SectionLogger) :
  inRange l →
  (is_Ok (Render l).2 = true
   ↔ Forall (fun e => fixedGlyphs (SectionOf e) ≤ width l) (entries l)) ∧
  (is_Ok (Render l).2 = false → (Render l).2 = Panic negativeRepeat).
Proof.
  intros [Hw Hnames]. rewrite Render_reportOf. unfold reportOf.
  apply (groups_fit_iff _ (fun s => fixedGlyphs s ≤ 2 ^ 61)) in Hnames.
  rewrite <- (groups_fit_iff _ (fun s => fixedGlyphs s ≤ width l)).
  destruct (linesOf_cases l (calculateMaxWidth l) true _ Hw Hnames)
    as [[Hfits Hok]|[Hnot Hpanic]].
  - destruct (linesOf l _ true _) as [body|msg] eqn:Hbody; [|done]. simpl.
    destruct body as [|line body]; [by split|].
    assert (5 ≤ width l) as H5.
    { destruct (groupsOf (entries l)) as [|g gs]; [by simplify_eq/=|].
      apply Forall_cons in Hfits as [Hg _].
      unfold fixedGlyphs, len in Hg. destruct (String.eqb g.1 ""); lia. }
    pose proof (headerLine_returns l "┗" "") as Hf.
    destruct (headerLine l "┗" "") as [f|msg]; simpl; [by split|].
    exfalso. assert (false = true); [|done]. apply Hf. unfold fixedGlyphs. simpl. lia.
  - rewrite Hpanic. simpl. split; [|done]. split; [done|]. intros H. by apply Hnot in H.
Qed.

Lemma Render_returns_iff_witness :
  inRange long_running ∧
  (is_Ok (Render long_running).2 = true
   ↔ Forall (fun e => fixedGlyphs (SectionOf e) ≤ width long_running)
       (entries long_running)) ∧
  (is_Ok (Render long_running).2 = false
   → (Render long_running).2 = Panic negativeRepeat).
Proof.
  assert (inRange long_running) as Hrange.
  { split; [by vm_compute|]. repeat constructor; by vm_compute. }
  split; [done|]. exact (Render_returns_iff long_running Hrange).
Defined.

(** ** The text of a report *)

Lemma strip_all (t : string) : allChars notESC t = true → strip false t = t.
Proof.
  intros Ht. rewrite <- (append_nil_r t) at 1. rewrite strip_text by done.
  simpl. apply append_nil_r.
Qed.

Lemma visible_entryLine (l : SectionLogger) (w : Z) (e : logEntry) :
  allChars notESC (prefix l) = true → cleanEntry e →
  visible (entryLine l w e) = plainEntry l w e.
Proof.
  intros Hp (Hs & Hl & Hv). unfold visible, entryLine, plainEntry, prefixBlock.
  rewrite strip_ColorAndStyle by done.
  rewrite (strip_text " ") by done.
  rewrite strip_ColorAndStyle by done.
  rewrite (strip_text " ") by done.
  rewrite strip_Foreground.
  - rewrite (strip_text " : ") by done. by rewrite strip_all.
  - unfold gofmt.padRight. rewrite allChars_app, Hl. simpl.
    by apply allChars_copies.
Qed.

Lemma visible_headerLine (l : SectionLogger) (corner section : string) :
  isCorner corner →
  allChars notESC (prefix l) = true → allChars notESC section = true →
  (line ← headerLine l corner section; Ok (visible line)) = plainHeader l corner section.
Proof.
  intros Hc Hp Hs. unfold headerLine, plainHeader.
  rewrite createBorderLine_unfold.
  destruct (gostrings.Repeat "━" (fillCount l section)) as [fill|msg] eqn:Hfill; simpl; [|done].
  f_equal. unfold visible, prefixBlock.
  rewrite strip_ColorAndStyle by done. rewrite (strip_text " ") by done.
  f_equal. f_equal.
  apply (visible_border_line (borderFg l) (borderBg l) (borderStyle l)); try done.
  - by destruct Hc as [->|[->| ->]].
  - unfold gostrings.Repeat in Hfill.
    destruct (fillCount l section <? 0); [done|].
    destruct (maxInt <? _); [done|]. injection Hfill as <-. by apply allChars_copies.
Qed.

Lemma shown_linesOf (l : SectionLogger) (w : Z) (isFirst : bool)
    (groups : list (string * list logEntry)) :
  allChars notESC (prefix l) = true →
  Forall (fun g => allChars notESC g.1 = true ∧ Forall cleanEntry g.2) groups →
  shown (linesOf l w isFirst groups) = plainLinesOf l w isFirst groups.
Proof.
  intros Hp. revert isFirst. induction groups as [|[s es] groups IH]; intros isFirst Hall;
    [done|].
  apply Forall_cons in Hall as [[Hs Hes] Hall]. simpl in Hs, Hes. simpl.
  rewrite <- (visible_headerLine l (if isFirst then "┏" else "┣") s); try done.
  2: { destruct isFirst; unfold isCorner; auto. }
  destruct (headerLine l _ s) as [h|msg]; simpl; [|done].
  rewrite <- (IH false Hall).
  destruct (linesOf l w false groups) as [below|msg]; simpl; [|done].
  unfold shown. simpl. f_equal. f_equal. rewrite map_app, map_map. f_equal.
  apply map_ext_in. intros e He. apply visible_entryLine; [done|].
  rewrite Forall_forall in Hes. by apply Hes, list_elem_of_In.
Qed.

Lemma groupsOf_clean (es : list logEntry) :
  Forall cleanEntry es →
  Forall (fun g : string * list logEntry =>
            allChars notESC g.1 = true ∧ Forall cleanEntry g.2) (groupsOf es).
Proof.
  intros Hall. unfold groupsOf. apply Forall_forall. intros g Hg.
  apply list_elem_of_fmap in Hg as (s & -> & Hs). simpl. split.
  - apply firstOccurrences_elem, list_elem_of_fmap in Hs as (e & -> & He).
    rewrite Forall_forall in Hall. by destruct (Hall e He).
  - unfold inSection. by apply Forall_filter_keeps.
Qed.

Lemma shown_reportOf (l : SectionLogger) :
  cleanLogger l → shown (Render l).2 = plainReport l.
Proof.
  intros [Hp Hes]. rewrite Render_reportOf. unfold reportOf, plainReport.
  rewrite <- (shown_linesOf l _ true) by (done || by apply groupsOf_clean).
  destruct (linesOf l _ true _) as [body|msg]; simpl; [|done].
  destruct body as [|line body]; [done|]. simpl.
  rewrite <- (visible_headerLine l "┗" ""); try done; [|unfold isCorner; auto].
  destruct (headerLine l "┗" "") as [f|msg]; simpl; [|done].
  unfold shown. simpl. by rewrite map_app.
Qed.



Lemma plainLinesOf_colours l l' w isFirst groups :
  prefix l' = prefix l → width l' = width l →
  plainLinesOf l' w isFirst groups = plainLinesOf l w isFirst groups.
Proof.
  intros Hp Hw. revert isFirst. induction groups as [|[s es] groups IH]; intros isFirst;
    [done|].
  simpl. rewrite IH. unfold plainHeader, plainEntry, fillCount. by rewrite Hp, Hw.
Qed.

(** X14. [SetBorderColor] and [SetPrefixColor] change no text: where no
    text of the logger holds an escape byte, the report after them shows the
    same lines as the report without them. *)
Theorem colours_do_not_change_text
    (l : SectionLogger) (fg bg fg' bg' : ColorCode) (style style' : TextStyle) :
  cleanLogger l →
  shown (Render (SetPrefixColor fg' bg' style' (SetBorderColor fg bg style l))).2
  = shown (Render l).2.
Proof.
  intros Hclean. rewrite !shown_reportOf; [|done|exact Hclean].
  unfold plainReport.
  set (l' := SetPrefixColor fg' bg' style' (SetBorderColor fg bg style l)).
  change (calculateMaxWidth l') with (calculateMaxWidth l).
  change (entries l') with (entries l).
  rewrite (plainLinesOf_colours l l') by done.
  destruct (plainLinesOf l _ true _) as [body|msg]; simpl; [|done].
  by destruct body.
Qed.

Lemma colours_do_not_change_text_witness :
  cleanLogger long_running ∧
  shown (Render (SetPrefixColor BrightWhite 0 0
                   (SetBorderColor BrightWhite BrightCyan 0 long_running))).2
  = shown (Render long_running).2.
Proof.
  assert (cleanLogger long_running) as Hclean
    by (split; [reflexivity | repeat constructor]).
  split; [done|].
  exact (colours_do_not_change_text long_running BrightWhite BrightCyan BrightWhite 0 0 0
           Hclean).
Defined.

(** ** The border line and the key column on their ranges *)

Lemma border_line_glyphs_witness :
  (isCorner "┣" ∧ allChars isPrintable "PLC_DIVERT" = true ∧
   fixedGlyphs "PLC_DIVERT" ≤ width (SetWidth 120 (New 0 "P")) ≤ 2 ^ 61) ∧
  glyphsOf (createBorderLine (SetWidth 120 (New 0 "P")) "┣" "PLC_DIVERT") = Ok 121%nat.
Proof.
  assert (isCorner "┣") as Hc by (right; by left).
  assert (fixedGlyphs "PLC_DIVERT" ≤ width (SetWidth 120 (New 0 "P")) ≤ 2 ^ 61) as Hw
    by (split; by vm_compute).
  split; [by repeat split|].
  exact (border_line_glyphs (SetWidth 120 (New 0 "P")) "┣" "PLC_DIVERT" Hc eq_refl Hw).
Defined.


(** ** Colour codes *)

Lemma land_byte (x : Z) : 0 ≤ x < 256 → Z.land x 255 = x.
Proof.
  intros Hx. change 255 with (Z.ones 8). rewrite Z.land_ones by lia.
  apply Z.mod_small. change (2 ^ 8) with 256. lia.
Qed.

Lemma shiftr_byte (x : Z) (n : Z) : 0 ≤ x < 256 → 8 ≤ n → Z.shiftr x n = 0.
Proof.
  intros Hx Hn. rewrite Z.shiftr_div_pow2 by lia. apply Z.div_small.
  split; [lia|]. apply Z.lt_le_trans with (2 ^ 8); [change (2 ^ 8) with 256; lia|].
  apply Z.pow_le_mono_r; lia.
Qed.

Lemma land_shiftl_byte (x n : Z) : 8 ≤ n → Z.land (Z.shiftl x n) 255 = 0.
Proof.
  intros Hn. change 255 with (Z.ones 8). rewrite Z.land_ones by lia.
  rewrite Z.shiftl_mul_pow2 by lia.
  replace n with ((n - 8) + 8) by lia. rewrite Z.pow_add_r by lia.
  rewrite Z.mul_assoc. apply Z.mod_mul. change (2 ^ 8) with 256. lia.
Qed.

Lemma CreateRGB_components (r g b : Z) :
  0 ≤ r < 256 → 0 ≤ g < 256 → 0 ≤ b < 256 →
  Z.land (Z.shiftr (CreateRGB r g b) 24) 255 = r ∧
  Z.land (Z.shiftr (CreateRGB r g b) 16) 255 = g ∧
  Z.land (Z.shiftr (CreateRGB r g b) 8) 255 = b.
Proof.
  intros Hr Hg Hb. unfold CreateRGB. rewrite !Z.shiftr_lor. repeat split.
  - rewrite Z.shiftr_shiftl_l by lia. simpl (24 - 24).
    rewrite Z.shiftr_shiftl_r, Z.shiftr_shiftl_r by lia.
    rewrite (shiftr_byte g), (shiftr_byte b) by lia.
    rewrite Z.shiftl_0_r, !Z.lor_0_r. by apply land_byte.
  - rewrite Z.shiftr_shiftl_l, Z.shiftr_shiftl_l, Z.shiftr_shiftl_r by lia.
    simpl (24 - 16). simpl (16 - 16). simpl (16 - 8).
    rewrite (shiftr_byte b), Z.shiftl_0_r, Z.lor_0_r by lia.
    rewrite Z.land_lor_distr_l, land_shiftl_byte, Z.lor_0_l by lia. by apply land_byte.
  - rewrite !Z.shiftr_shiftl_l by lia.
    simpl (24 - 8). simpl (16 - 8). simpl (8 - 8). rewrite Z.shiftl_0_r.
    rewrite !Z.land_lor_distr_l, !land_shiftl_byte, !Z.lor_0_l by lia. by apply land_byte.
Qed.

Lemma mask_zero_component (c k : Z) :
  8 ≤ k ≤ 24 → Z.land c RGBMask = 0 → Z.land (Z.shiftr c k) 255 = 0.
Proof.
  intros Hk Hz. apply Z.bits_inj'. intros i Hi.
  rewrite Z.bits_0, Z.land_spec, Z.shiftr_spec by lia.
  destruct (Z_lt_ge_dec i 8) as [Hlow|Hhigh].
  - assert (Z.testbit (Z.land c RGBMask) (i + k) = false) as Hbit
      by (by rewrite Hz, Z.bits_0).
    rewrite Z.land_spec in Hbit.
    assert (Z.testbit RGBMask (i + k) = true) as Hm.
    { unfold RGBMask. change 0xFFFFFF00 with (Z.shiftl (Z.ones 24) 8).
      rewrite Z.shiftl_spec by lia. apply Z.ones_spec_low. lia. }
    rewrite Hm, andb_true_r in Hbit. by rewrite Hbit.
  - change 255 with (Z.ones 8). rewrite Z.ones_spec_high by lia. apply andb_false_r.
Qed.

Lemma IsRGB_CreateRGB (r g b : Z) :
  0 ≤ r < 256 → 0 ≤ g < 256 → 0 ≤ b < 256 →
  IsRGB (CreateRGB r g b) = negb (bool_decide (r = 0 ∧ g = 0 ∧ b = 0)).
Proof.
  intros Hr Hg Hb. unfold IsRGB. f_equal.
  destruct (CreateRGB_components r g b Hr Hg Hb) as (Hcr & Hcg & Hcb).
  destruct (Z.eqb_spec (Z.land (CreateRGB r g b) RGBMask) 0) as [Hz|Hnz].
  - symmetry. apply bool_decide_eq_true. repeat split.
    + rewrite <- Hcr. apply mask_zero_component; [lia|done].
    + rewrite <- Hcg. apply mask_zero_component; [lia|done].
    + rewrite <- Hcb. apply mask_zero_component; [lia|done].
  - symmetry. apply bool_decide_eq_false. intros (-> & -> & ->). by apply Hnz.
Qed.

(** X17. [RGB] and [CreateRGB] build the same code.  For components from
    0 to 255, the code is an RGB code unless all three are 0, and an RGB
    code prints its three components back, in order, in the foreground and
    in the background sequence; black, whose code is 0, is not an RGB code
    and its foreground sequence is the reset sequence. *)
Theorem RGB_colour_round_trip (r g b : Z) :
  0 ≤ r < 256 → 0 ≤ g < 256 → 0 ≤ b < 256 →
  RGB r g b = CreateRGB r g b ∧
  (IsRGB (CreateRGB r g b) = false ↔ r = 0 ∧ g = 0 ∧ b = 0) ∧
  (IsRGB (CreateRGB r g b) = true →
   OneForeground (CreateRGB r g b)
     = ESC +:+ "[38;2;" +:+ gofmt.decimal r +:+ ";" +:+ gofmt.decimal g +:+ ";"
         +:+ gofmt.decimal b +:+ "m" ∧
   OneBackground (CreateRGB r g b)
     = ESC +:+ "[48;2;" +:+ gofmt.decimal r +:+ ";" +:+ gofmt.decimal g +:+ ";"
         +:+ gofmt.decimal b +:+ "m") ∧
  OneForeground (CreateRGB 0 0 0) = Reset.
Proof.
  intros Hr Hg Hb. split; [done|].
  destruct (CreateRGB_components r g b Hr Hg Hb) as (Hcr & Hcg & Hcb).
  split; [|split; [|done]].
  - rewrite IsRGB_CreateRGB by done. rewrite negb_false_iff. by rewrite bool_decide_eq_true.
  - intros Hrgb. unfold OneForeground, OneBackground, rgbTriple.
    by rewrite Hrgb, Hcr, Hcg, Hcb, !append_assoc.
Qed.

Lemma RGB_colour_round_trip_witness :
  (0 ≤ 100 < 256 ∧ 0 ≤ 150 < 256 ∧ 0 ≤ 200 < 256) ∧
  IsRGB (CreateRGB 100 150 200) = true ∧
  OneForeground (CreateRGB 100 150 200) = ESC +:+ "[38;2;100;150;200m".
Proof.
  split; [lia|]. split; [reflexivity|].
  exact (proj1 (proj1 (proj2 (proj2
           (RGB_colour_round_trip 100 150 200 ltac:(lia) ltac:(lia) ltac:(lia))))
         eq_refl)).
Defined.

Lemma small_code_not_RGB (c : Z) : 0 ≤ c < 2 ^ 32 → (IsRGB c = false ↔ c < 256).
Proof.
  intros Hc. unfold IsRGB. rewrite negb_false_iff, Z.eqb_eq. split.
  - intros Hz. destruct (Z_lt_ge_dec c 256) as [|Hbig]; [done|]. exfalso.
    assert (Z.shiftr c 8 = 0) as Hs.
    { apply Z.bits_inj'. intros i Hi. rewrite Z.bits_0, Z.shiftr_spec by lia.
      destruct (Z_lt_ge_dec i 24) as [Hlow|Hhigh].
      - assert (Z.testbit (Z.land c RGBMask) (i + 8) = false) as Hbit
          by (by rewrite Hz, Z.bits_0).
        rewrite Z.land_spec in Hbit.
        assert (Z.testbit RGBMask (i + 8) = true) as Hm.
        { unfold RGBMask. change 0xFFFFFF00 with (Z.shiftl (Z.ones 24) 8).
          rewrite Z.shiftl_spec by lia. apply Z.ones_spec_low. lia. }
        by rewrite Hm, andb_true_r in Hbit.
      - apply Z.bits_above_log2; [lia|]. apply Z.log2_lt_pow2; [lia|].
        apply Z.lt_le_trans with (2 ^ 32); [lia|]. apply Z.pow_le_mono_r; lia. }
    rewrite Z.shiftr_div_pow2 in Hs by lia. change (2 ^ 8) with 256 in Hs.
    assert (1 ≤ c `div` 256); [|lia]. apply Z.div_le_lower_bound; lia.
  - intros Hsmall. apply Z.bits_inj'. intros i Hi. rewrite Z.bits_0, Z.land_spec.
    destruct (Z_lt_ge_dec i 8) as [Hlow|Hhigh].
    + unfold RGBMask. change 0xFFFFFF00 with (Z.shiftl (Z.ones 24) 8).
      rewrite Z.shiftl_spec_low by lia. apply andb_false_r.
    + rewrite (Z.bits_above_log2 c i); [done|lia|].
      destruct (decide (c = 0)) as [->|Hc0]; [simpl; lia|].
      apply Z.log2_lt_pow2; [lia|].
      apply Z.lt_le_trans with (2 ^ 8); [change (2 ^ 8) with 256; lia|].
      apply Z.pow_le_mono_r; lia.
Qed.

(** X18. A [uint32] code is an ANSI code, not an RGB one, exactly if it
    is below 256; such a code is printed as it is for the foreground and ten
    higher for the background, without wrap-around. *)
Theorem ANSI_codes_print_plainly (c : Z) :
  0 ≤ c < 2 ^ 32 →
  (IsRGB c = false ↔ c < 256) ∧
  (c < 256 →
   OneForeground c = ESC +:+ "[" +:+ gofmt.decimal c +:+ "m" ∧
   OneBackground c = ESC +:+ "[" +:+ gofmt.decimal (c + 10) +:+ "m").
Proof.
  intros Hc. split; [by apply small_code_not_RGB|].
  intros Hsmall. apply small_code_not_RGB in Hsmall as Hrgb; [|done].
  unfold OneForeground, OneBackground. rewrite Hrgb. split; [done|].
  unfold uint32_wrap, BackgroundOffset. rewrite Z.mod_small; [done|].
  change (2 ^ 32) with 4294967296. lia.
Qed.

Lemma ANSI_codes_print_plainly_witness :
  0 ≤ BrightWhite < 2 ^ 32 ∧
  IsRGB BrightWhite = false ∧
  OneBackground BrightWhite = ESC +:+ "[107m".
Proof.
  assert (0 ≤ BrightWhite < 2 ^ 32) as Hc by (split; by vm_compute).
  split; [done|]. split; [reflexivity|].
  exact (proj2 (proj2 (ANSI_codes_print_plainly BrightWhite Hc) ltac:(by vm_compute))).
Defined.

(** X19. [ColorFrom] never indexes its slice out of range; what it
    returns is one of the fourteen colours of the slice, never black and
    never an RGB code, and it is the same for [item] and [item + 14]. *)
Theorem ColorFrom_picks_a_plain_colour (item : Z) :
  ∃ c, ColorFrom item = Ok c ∧
       c ∈ colorsOfColorFrom ∧ c ≠ Black ∧ IsRGB c = false ∧
       ColorFrom (item + 14) = Ok c.
Proof.
  unfold ColorFrom. change (Z.of_nat (length colorsOfColorFrom)) with 14.
  replace ((item + 14) mod 14) with (item mod 14)
    by (rewrite <- (Z.mul_1_l 14) at 2; by rewrite Z.mod_add).
  pose proof (Z.mod_pos_bound item 14 ltac:(lia)) as Hi.
  remember (item mod 14) as i eqn:Heqi. clear Heqi.
  assert (i = 0 ∨ i = 1 ∨ i = 2 ∨ i = 3 ∨ i = 4 ∨ i = 5 ∨ i = 6 ∨ i = 7 ∨ i = 8
          ∨ i = 9 ∨ i = 10 ∨ i = 11 ∨ i = 12 ∨ i = 13) as Hcases by lia.
  repeat (destruct Hcases as [->|Hcases]); try subst i;
    (eexists; split; [reflexivity|]; split; [|split; [|split]]);
    try reflexivity; try discriminate; vm_compute; repeat constructor.
Qed.

(** X20. Colour takes no place in the text: with the escape sequences
    taken out, [Foreground] and [Color] show their arguments joined by one
    space, whatever the colours, provided the arguments hold no escape
    byte. *)
Theorem colour_leaves_the_text (fg bg : ColorCode) (v : list string) :
  allChars notESC (gostrings.Join v " ") = true →
  visible (Foreground fg v) = gostrings.Join v " " ∧
  visible (Color fg bg v) = gostrings.Join v " ".
Proof.
  intros Hv. unfold visible, Foreground, Color. split.
  - rewrite strip_OneForeground, strip_text by done.
    change (strip false Reset) with "". apply append_nil_r.
  - rewrite strip_OneForeground, strip_OneBackground, strip_text by done.
    change (strip false Reset) with "". apply append_nil_r.
Qed.

Lemma colour_leaves_the_text_witness :
  allChars notESC (gostrings.Join ["Red"; "Text"] " ") = true ∧
  visible (Foreground Red ["Red"; "Text"]) = "Red Text" ∧
  visible (Color Red (CreateRGB 200 225 255) ["Red"; "Text"]) = "Red Text".
Proof.
  split; [reflexivity|].
  exact (colour_leaves_the_text Red (CreateRGB 200 225 255) ["Red"; "Text"] eq_refl).
Defined.

(** ** The monitor *)

Section Monitor.
Import monitor.

Lemma quotient_range (b d q : Z) :
  0 < d → 1 ≤ b / d < q → d ≤ b < d * q.
Proof.
  intros Hd Hq. pose proof (Z.mul_div_le b d Hd). pose proof (Z.mul_succ_div_gt b d Hd).
  nia.
Qed.

Lemma scale_ends (k : nat) :
  ∀ (fuel : nat) (b n : Z) (e : nat),
    (k < fuel)%nat → (e + k ≤ 5)%nat →
    1 ≤ n < unit ^ (Z.of_nat k + 1) →
    n = b / unit ^ (Z.of_nat e + 1) →
    ∃ e', scale fuel n (unit ^ (Z.of_nat e + 1)) e = Some (unit ^ (Z.of_nat e' + 1), e') ∧
          (e' ≤ 5)%nat ∧
          unit ^ (Z.of_nat e' + 1) ≤ b < unit ^ (Z.of_nat e' + 2).
Proof.
  induction k as [|k IH]; intros fuel b n e Hfuel He Hn Hb.
  - destruct fuel as [|fuel]; [lia|]. simpl.
    change (unit ^ (0 + 1)) with unit in Hn.
    destruct (Z.leb_spec unit n) as [Hge|Hlt]; [lia|].
    exists e. split; [done|]. split; [lia|].
    assert (0 < unit ^ (Z.of_nat e + 1)) as Hpos by (apply Z.pow_pos_nonneg; unfold unit; lia).
    subst n.
    replace (Z.of_nat e + 2) with (Z.succ (Z.of_nat e + 1)) by lia.
    rewrite Z.pow_succ_r by lia. rewrite (Z.mul_comm unit).
    apply quotient_range; [done | lia].
  - destruct fuel as [|fuel]; [lia|]. simpl.
    assert (0 < unit ^ (Z.of_nat e + 1)) as Hpos by (apply Z.pow_pos_nonneg; unfold unit; lia).
    destruct (Z.leb_spec unit n) as [Hge|Hlt].
    + assert (unit ^ (Z.of_nat e + 1) * unit = unit ^ (Z.of_nat (S e) + 1)) as Hdiv.
      { replace (Z.of_nat (S e) + 1) with (Z.succ (Z.of_nat e + 1)) by lia.
        rewrite Z.pow_succ_r by lia. lia. }
      rewrite int_wrap_small, Hdiv.
      * apply (IH fuel b (n / unit) (S e)); [lia | lia | |].
        -- split; [apply Z.div_le_lower_bound; unfold unit in *; lia|].
           apply Z.div_lt_upper_bound; [unfold unit; lia|].
           replace (Z.of_nat (S k) + 1) with (Z.succ (Z.of_nat k + 1)) in Hn by lia.
           rewrite Z.pow_succ_r in Hn by lia. lia.
        -- subst n. rewrite Z.div_div by (unfold unit; lia). by rewrite Hdiv.
      * rewrite Hdiv. split.
        -- assert (0 < unit ^ (Z.of_nat (S e) + 1)); [apply Z.pow_pos_nonneg; unfold unit; lia|].
           change (2 ^ 63) with 9223372036854775808. lia.
        -- apply Z.le_lt_trans with (unit ^ 6); [|by vm_compute].
           apply Z.pow_le_mono_r; unfold unit; lia.
    + exists e. split; [done|]. split; [lia|]. subst n.
      replace (Z.of_nat e + 2) with (Z.succ (Z.of_nat e + 1)) by lia.
      rewrite Z.pow_succ_r by lia. rewrite (Z.mul_comm unit).
      apply quotient_range; [done | lia].
Qed.

(** X21. For every [uint64] the loop of [formatBytes] ends, the index
    into ["KMGTPE"] is at most 5 and so in range, the [int64] divisor does
    not overflow, and the divisor is the power of 1024 for which the
    quotient lies from 1 up to, not including, 1024; below 1024 the count is
    printed as it is. *)
Theorem formatBytes_unit_in_range (b : Z) :
  0 ≤ b < 2 ^ 64 →
  (b < unit → formatBytes b = Some (Ok (plainBytes (gofmt.decimal b +:+ " B")))) ∧
  (unit ≤ b →
   ∃ (exp : nat) (letter : Ascii.ascii),
     (exp ≤ 5)%nat ∧
     String.get exp "KMGTPE" = Some letter ∧
     formatBytes b = Some (Ok (scaledBytes b (unit ^ (Z.of_nat exp + 1)) letter)) ∧
     unit ^ (Z.of_nat exp + 1) ≤ b < unit ^ (Z.of_nat exp + 2)).
Proof.
  intros Hb. unfold formatBytes. split.
  - intros Hsmall. by rewrite (proj2 (Z.ltb_lt _ _) Hsmall).
  - intros Hbig. rewrite (proj2 (Z.ltb_ge _ _) Hbig).
    destruct (scale_ends 5 64 b (b / unit) 0) as (e & Hscale & He & Hrange).
    + lia.
    + lia.
    + split; [apply Z.div_le_lower_bound; unfold unit in *; lia|].
      apply Z.div_lt_upper_bound; [unfold unit; lia|].
      change (unit * unit ^ (Z.of_nat 5 + 1)) with (2 ^ 70).
      apply Z.lt_le_trans with (2 ^ 64); [lia | by vm_compute].
    + done.
    + change (unit ^ (Z.of_nat 0 + 1)) with unit in Hscale. rewrite Hscale.
      assert (∃ letter, String.get e "KMGTPE" = Some letter) as [letter Hletter].
      { do 6 (destruct e as [|e]; [by eexists|]). lia. }
      exists e, letter. unfold unitLetter. rewrite Hletter. done.
Qed.

Lemma formatBytes_unit_in_range_witness :
  0 ≤ 5368709120 < 2 ^ 64 ∧
  ∃ (exp : nat) (letter : Ascii.ascii),
    (exp ≤ 5)%nat ∧
    String.get exp "KMGTPE" = Some letter ∧
    formatBytes 5368709120
    = Some (Ok (scaledBytes 5368709120 (unit ^ (Z.of_nat exp + 1)) letter)) ∧
    unit ^ (Z.of_nat exp + 1) ≤ 5368709120 < unit ^ (Z.of_nat exp + 2).
Proof.
  assert (0 ≤ 5368709120 < 2 ^ 64) as Hb by (split; by vm_compute).
  split; [done|].
  exact (proj2 (formatBytes_unit_in_range 5368709120 Hb) ltac:(by vm_compute)).
Defined.



End Monitor.
